(** * Kernel Crash Analyzer: the prompt builder and the response validator

    A shallow embedding of [backend.py]: the request and report models,
    [build_user_prompt], and the body of [analyze_crash] (input check, call
    of the completion client, fence stripping, [json.loads], construction
    of [AnalysisReport], classification of failures). [json.loads] is
    decoded with the two limits of the interpreter it meets, the
    recursion limit and the limit on the digits of an integer; floats are
    binary64 numbers.

    Python's [str] is a sequence of Unicode code points: it is modelled as
    a list of code points, so that [str.strip] sees the same whitespace as
    the interpreter does. *)

From Stdlib Require Import List NArith ZArith Bool String Ascii DecimalString Lia.
Import ListNotations.

Set Warnings "-register-all".

(** ** Python strings *)

Module PyStr.

Definition pystr := list N.

(** A string literal of the source (ASCII only). *)
Definition lit (s : string) : pystr :=
  List.map N_of_ascii (list_ascii_of_string s).

(** Test inputs are written with an apostrophe where the text has a double
    quote. *)
Definition dq (s : string) : pystr :=
  List.map (fun c => if N.eqb c 39 then 34%N else c) (lit s).

Fixpoint eqb (a b : pystr) : bool :=
  match a, b with
  | [], [] => true
  | x :: a', y :: b' => N.eqb x y && eqb a' b'
  | _, _ => false
  end.

(** [str.isspace] on one code point ([_PyUnicode_IsWhitespace]). *)
Definition isspace (c : N) : bool :=
  (((9 <=? c) && (c <=? 13)) || ((28 <=? c) && (c <=? 32))
   || (c =? 133) || (c =? 160) || (c =? 5760)
   || ((8192 <=? c) && (c <=? 8202))
   || (c =? 8232) || (c =? 8233) || (c =? 8239) || (c =? 8287)
   || (c =? 12288))%N.

Fixpoint lstrip (s : pystr) : pystr :=
  match s with
  | [] => []
  | c :: s' => if isspace c then lstrip s' else s
  end.

Definition rstrip (s : pystr) : pystr := rev (lstrip (rev s)).

(** [s.strip()] *)
Definition strip (s : pystr) : pystr := lstrip (rstrip s).

(** [s.startswith(p)] *)
Fixpoint startswith (s p : pystr) {struct p} : bool :=
  match p, s with
  | [], _ => true
  | x :: p', y :: s' => N.eqb x y && startswith s' p'
  | _ :: _, [] => false
  end.

(** [s.endswith(p)] *)
Definition endswith (s p : pystr) : bool := startswith (rev s) (rev p).

(** [s.partition(sep)] when [sep] occurs in [s]: the text before the first
    occurrence and the text after it. *)
Fixpoint partition (sep s : pystr) : option (pystr * pystr) :=
  if startswith s sep then Some ([], skipn (List.length sep) s)
  else match s with
       | [] => None
       | c :: s' =>
           match partition sep s' with
           | Some (a, b) => Some (c :: a, b)
           | None => None
           end
       end.

(** [s.split(sep, 1)] for a non-empty [sep]. *)
Definition split1 (sep s : pystr) : list pystr :=
  match partition sep s with
  | Some (a, b) => [a; b]
  | None => [s]
  end.

(** [s.rsplit(sep, 1)] for a non-empty [sep]: the split is at the last
    occurrence, which is the first one read from the right. *)
Definition rsplit1 (sep s : pystr) : list pystr :=
  match partition (rev sep) (rev s) with
  | Some (a, b) => [rev b; rev a]
  | None => [s]
  end.

(** [sep.join(parts)] *)
Fixpoint join (sep : pystr) (parts : list pystr) : pystr :=
  match parts with
  | [] => []
  | [p] => p
  | p :: ps => p ++ sep ++ join sep ps
  end.

(** [sub in s] *)
Fixpoint contains (s sub : pystr) : bool :=
  startswith s sub
  || match s with
     | [] => false
     | _ :: s' => contains s' sub
     end.

End PyStr.
Import PyStr.

(** ** Exceptions and results *)

Inductive loc_item :=
| LocField (name : pystr)
| LocIndex (i : nat).

(** One line of a pydantic [ValidationError]: the error type and the
    location of the offending value. *)
Record error_detail := ErrorDetail {
  err_type : string;
  err_loc : list loc_item
}.

Inductive exn :=
| IndexError (msg : pystr)
| AttributeError
| TypeError
| RecursionError (msg : pystr)
| ValueError (msg : pystr)
| JSONDecodeError (msg : pystr) (doc : pystr) (pos : nat)
| ValidationError (title : pystr) (errors : list error_detail)
| APIError (msg : pystr).

Inductive res (A : Type) :=
| Ok (a : A)
| Raise (e : exn).
Arguments Ok {A} a.
Arguments Raise {A} e.

Definition bind {A B} (m : res A) (k : A -> res B) : res B :=
  match m with
  | Ok a => k a
  | Raise e => Raise e
  end.

Notation "x <- m ;; k" := (bind m (fun x => k))
  (at level 61, m at next level, right associativity).

(** [l[i]] on a Python list. *)
Definition index {A} (l : list A) (i : nat) : res A :=
  match nth_error l i with
  | Some a => Ok a
  | None => Raise (IndexError (lit "list index out of range"))
  end.

(** [str(n)] for a natural number. *)
Definition decimal (n : nat) : pystr :=
  lit (NilEmpty.string_of_uint (Nat.to_uint n)).

(** ** Floats

    A [float] is an IEEE 754 binary64 number. A finite one is
    [m * 2^e], negated when [neg] is set, with [m] below [2^53] and [e]
    from [-1074] up; zero has the exponent [-1074]. *)

Inductive pyfloat :=
| Finite (neg : bool) (m : N) (e : Z)
| Infinite (neg : bool)
| NaN.

Module Float.

Local Open Scope Z_scope.

(** [2^k], and 1 for a negative [k]. *)
Definition pow2 (k : Z) : Z := 2 ^ Z.max 0 k.

(** The float nearest to [p / q], for [0 <= p] and [0 < q]: the quotient
    is rounded to 53 significant bits, or to a multiple of [2^-1074] when
    it is smaller than [2^-1022]; a tie goes to the even significand, and
    what rounds to [2^1024] or more is an infinity. This is the value of
    [float(text)], which is correctly rounded. *)
Definition nearest (neg : bool) (p q : Z) : pyfloat :=
  if p =? 0 then Finite neg 0 (-1074)
  else
    let k := Z.log2 p - Z.log2 q in
    let e := if q * pow2 k <=? p * pow2 (- k) then k else k - 1 in
    let u := Z.max (e - 52) (-1074) in
    let num := p * pow2 (- u) in
    let den := q * pow2 u in
    let m := num / den in
    let r := num mod den in
    let m := if (den <? 2 * r) || ((den =? 2 * r) && Z.odd m) then m + 1 else m in
    let (m, u) := if m =? 2 ^ 53 then (2 ^ 52, u + 1) else (m, u) in
    if 1024 <=? Z.log2 m + u then Infinite neg
    else Finite neg (Z.to_N m) u.

(** A finite float without fractional part. *)
Definition integral (m : N) (e : Z) : bool :=
  (0 <=? e) || (Z.of_N m mod 2 ^ (- e) =? 0).

(** The integer of a finite float without fractional part. *)
Definition to_Z (neg : bool) (m : N) (e : Z) : Z :=
  let a := if 0 <=? e then Z.of_N m * 2 ^ e else Z.of_N m / 2 ^ (- e) in
  if neg then - a else a.

End Float.

(** ** Limits of the interpreter

    Two limits of CPython are met by [json.loads]. The scanner enters a
    recursive call for each array and object it opens, and the call is
    refused with [RecursionError] when the recursion limit is reached:
    [recursion_limit] is the number of arrays and objects that can be open
    at once, which is what [sys.getrecursionlimit()] (1000 unless changed)
    leaves at the point of the call. [int(text)] refuses a numeral of
    more than [sys.get_int_max_str_digits()] digits (4300 unless changed;
    0 turns the check off). *)
Record limits := {
  recursion_limit : nat;
  int_max_str_digits : nat
}.

(** ** Request model and prompt builder *)

Record AnalyzeRequest := {
  log_text : pystr;
  kernel_version : pystr;
  distro : pystr;
  additional_context : pystr
}.

(** Truth value of a [str]: non-empty. *)
Definition truthy (s : pystr) : bool :=
  match s with [] => false | _ :: _ => true end.

(** [parts.append(x)] under [if cond:]. *)
Definition append_if (cond : bool) (x : pystr) (parts : list pystr) : list pystr :=
  if cond then parts ++ [x] else parts.

Definition build_user_prompt (req : AnalyzeRequest) : pystr :=
  let parts := [lit "<kernel_log>" ++ [10%N] ++ log_text req ++ [10%N] ++ lit "</kernel_log>"] in
  let parts := append_if (truthy (kernel_version req))
                 (lit "Kernel version (user-provided): " ++ kernel_version req) parts in
  let parts := append_if (truthy (distro req))
                 (lit "Distribution: " ++ distro req) parts in
  let parts := append_if (truthy (additional_context req))
                 (lit "Additional context from the engineer: " ++ additional_context req) parts in
  let parts := parts ++ [[10%N] ++ lit "Analyze this crash and respond with the JSON report."] in
  join [10%N; 10%N] parts.

(** ** Fence stripping (lines 129 to 136 of [analyze_crash]) *)

Definition fence : pystr := lit "```".

Definition strip_fence (text : pystr) : res pystr :=
  let raw := strip text in
  raw <- (if startswith raw fence then index (split1 [10%N] raw) 1 else Ok raw) ;;
  raw <- (if endswith raw fence then index (rsplit1 fence raw) 0 else Ok raw) ;;
  Ok (strip raw).

(** ** [json.loads]

    The decoder of CPython's [json] package with its default settings
    (strict strings, [NaN] and [Infinity] accepted), as the accelerated
    scanner of [Modules/_json.c] runs it; error messages are those of
    CPython 3.12. A scanner works on the text that is left and returns the
    text left after the value; a position [idx] of the interpreter is the
    length of the document minus the length of that text. *)

Inductive json :=
| JNull
| JBool (b : bool)
| JInt (n : Z)
| JFloat (f : pyfloat)
| JStr (s : pystr)
| JArr (items : list json)
| JObj (pairs : list (pystr * json)).

(** [d[key] = v] on a [dict], kept in insertion order. *)
Fixpoint dict_set (key : pystr) (v : json) (d : list (pystr * json)) : list (pystr * json) :=
  match d with
  | [] => [(key, v)]
  | (k, x) :: d' => if PyStr.eqb k key then (k, v) :: d' else (k, x) :: dict_set key v d'
  end.

(** [d.get(key)] *)
Fixpoint dict_get (key : pystr) (d : list (pystr * json)) : option json :=
  match d with
  | [] => None
  | (k, x) :: d' => if PyStr.eqb k key then Some x else dict_get key d'
  end.

(** What a scanner returns: a value and the text after it;
    [StopIteration] and the error messages, which [JSONDecoder.decode]
    turns into a [JSONDecodeError]; another exception, which goes through
    [decode] as it is; [OutOfFuel] when the fuel of the recursion of the
    model is used up, which does not happen with the fuel [loads] gives. *)
Inductive scan (A : Type) :=
| Scanned (a : A) (rest : pystr)
| StopIteration (remaining : nat)
| ErrMsg (msg : string) (remaining : nat)
| Fails (e : exn)
| OutOfFuel.
Arguments Scanned {A} a rest.
Arguments StopIteration {A} remaining.
Arguments ErrMsg {A} msg remaining.
Arguments Fails {A} e.
Arguments OutOfFuel {A}.

Module Json.

Local Open Scope N_scope.

(** [IS_WHITESPACE]: space, tab, line feed, carriage return. *)
Definition is_ws (c : N) : bool :=
  (c =? 32) || (c =? 9) || (c =? 10) || (c =? 13).

Fixpoint skip_ws (s : pystr) : pystr :=
  match s with
  | [] => []
  | c :: s' => if is_ws c then skip_ws s' else s
  end.

Definition is_digit (c : N) : bool := (48 <=? c) && (c <=? 57).

Definition hexval (c : N) : option N :=
  if (48 <=? c) && (c <=? 57) then Some (c - 48)
  else if (97 <=? c) && (c <=? 102) then Some (c - 97 + 10)
  else if (65 <=? c) && (c <=? 70) then Some (c - 65 + 10)
  else None.

Definition hex4 (h1 h2 h3 h4 : N) : option N :=
  match hexval h1, hexval h2, hexval h3, hexval h4 with
  | Some a, Some b, Some c, Some d =>
      Some (N.lor (N.shiftl (N.lor (N.shiftl (N.lor (N.shiftl a 4) b) 4) c) 4) d)
  | _, _, _, _ => None
  end.

Definition is_high_surrogate (c : N) : bool := (55296 <=? c) && (c <=? 56319).
Definition is_low_surrogate (c : N) : bool := (56320 <=? c) && (c <=? 57343).

(** [Py_UNICODE_JOIN_SURROGATES] *)
Definition join_surrogates (high low : N) : N :=
  N.lor (N.shiftl (N.land high 1023) 10) (N.land low 1023) + 65536.

(** The escapes other than [\u]. *)
Definition unescape (c : N) : option N :=
  if c =? 34 then Some 34
  else if c =? 92 then Some 92
  else if c =? 47 then Some 47
  else if c =? 98 then Some 8
  else if c =? 102 then Some 12
  else if c =? 110 then Some 10
  else if c =? 114 then Some 13
  else if c =? 116 then Some 9
  else None.

(** [scanstring_unicode], called on the text after the opening quote;
    [begin] is what is left of the document at that quote. *)
Fixpoint scanstring_loop (begin : nat) (s : pystr) (acc : pystr) {struct s} : scan pystr :=
  match s with
  | [] => ErrMsg "Unterminated string starting at" begin
  | c :: s1 =>
      if c =? 34 then Scanned (rev acc) s1
      else if c =? 92 then
        match s1 with
        | [] => ErrMsg "Unterminated string starting at" begin
        | e :: s2 =>
            if e =? 117 then
              match s2 with
              | h1 :: h2 :: h3 :: h4 :: ((_ :: _) as s3) =>
                  match hex4 h1 h2 h3 h4 with
                  | None => ErrMsg "Invalid \uXXXX escape" (List.length s1)
                  | Some c1 =>
                      if is_high_surrogate c1 then
                        match s3 with
                        | b :: u :: g1 :: g2 :: g3 :: g4 :: ((_ :: _) as s4) =>
                            if (b =? 92) && (u =? 117) then
                              match hex4 g1 g2 g3 g4 with
                              | None => ErrMsg "Invalid \uXXXX escape" (Nat.pred (List.length s3))
                              | Some c2 =>
                                  if is_low_surrogate c2
                                  then scanstring_loop begin s4 (join_surrogates c1 c2 :: acc)
                                  else scanstring_loop begin s3 (c1 :: acc)
                              end
                            else scanstring_loop begin s3 (c1 :: acc)
                        | _ => scanstring_loop begin s3 (c1 :: acc)
                        end
                      else scanstring_loop begin s3 (c1 :: acc)
                  end
              | _ => ErrMsg "Invalid \uXXXX escape" (List.length s1)
              end
            else
              match unescape e with
              | Some ch => scanstring_loop begin s2 (ch :: acc)
              | None => ErrMsg "Invalid \escape" (List.length s)
              end
        end
      else if c <=? 31 then ErrMsg "Invalid control character at" (List.length s)
      else scanstring_loop begin s1 (c :: acc)
  end.

Definition scanstring (s : pystr) : scan pystr :=
  scanstring_loop (S (List.length s)) s [].

(** One turn of the loop of [scanstring_unicode]: the closing quote, one
    character of the string (written plainly or as an escape), or an
    error. *)
Inductive chunk :=
| Closing (rest : pystr)
| Char (c : N) (rest : pystr)
| Bad (msg : string) (remaining : nat)
| Unterminated.

Definition scan_chunk (s : pystr) : chunk :=
  match s with
  | [] => Unterminated
  | c :: s1 =>
      if c =? 34 then Closing s1
      else if c =? 92 then
        match s1 with
        | [] => Unterminated
        | e :: s2 =>
            if e =? 117 then
              match s2 with
              | h1 :: h2 :: h3 :: h4 :: ((_ :: _) as s3) =>
                  match hex4 h1 h2 h3 h4 with
                  | None => Bad "Invalid \uXXXX escape" (List.length s1)
                  | Some c1 =>
                      if is_high_surrogate c1 then
                        match s3 with
                        | b :: u :: g1 :: g2 :: g3 :: g4 :: ((_ :: _) as s4) =>
                            if (b =? 92) && (u =? 117) then
                              match hex4 g1 g2 g3 g4 with
                              | None => Bad "Invalid \uXXXX escape" (Nat.pred (List.length s3))
                              | Some c2 =>
                                  if is_low_surrogate c2
                                  then Char (join_surrogates c1 c2) s4
                                  else Char c1 s3
                              end
                            else Char c1 s3
                        | _ => Char c1 s3
                        end
                      else Char c1 s3
                  end
              | _ => Bad "Invalid \uXXXX escape" (List.length s1)
              end
            else
              match unescape e with
              | Some ch => Char ch s2
              | None => Bad "Invalid \escape" (List.length s)
              end
        end
      else if c <=? 31 then Bad "Invalid control character at" (List.length s)
      else Char c s1
  end.

(** The longest run of digits at the head of [s], and what follows it. *)
Fixpoint digits (s : pystr) : pystr * pystr :=
  match s with
  | [] => ([], [])
  | c :: s' =>
      if is_digit c then let (ds, r) := digits s' in (c :: ds, r)
      else ([], s)
  end.

(** [int(text)] for a run of decimal digits. *)
Definition int_of_digits (ds : pystr) : Z :=
  fold_left (fun acc c => (10 * acc + Z.of_N (c - 48))%Z) ds 0%Z.

(** The integer part of a number: a digit from 1 to 9 and the digits that
    follow it, or a single 0. *)
Definition int_part (s : pystr) : option (pystr * pystr) :=
  match s with
  | [] => None
  | c :: s' =>
      if (49 <=? c) && (c <=? 57) then let (ds, r) := digits s' in Some (c :: ds, r)
      else if c =? 48 then Some ([c], s')
      else None
  end.

(** The fraction: a point followed by at least one digit; otherwise no
    character is read. *)
Definition frac_part (s : pystr) : pystr * pystr :=
  match s with
  | p :: d :: r =>
      if (p =? 46) && is_digit d then let (ds, r') := digits r in (p :: d :: ds, r')
      else ([], s)
  | _ => ([], s)
  end.

(** The exponent: [e] or [E], an optional sign and at least one digit;
    without a digit the scanner backtracks and no character is read. *)
Definition exp_part (s : pystr) : pystr * pystr :=
  match s with
  | e :: r =>
      if (e =? 101) || (e =? 69) then
        let (sign, r') := match r with
                          | sg :: r'' => if (sg =? 45) || (sg =? 43) then ([sg], r'') else ([], r)
                          | [] => ([], r)
                          end in
        match digits r' with
        | ([], _) => ([], s)
        | (ds, r'') => (e :: sign ++ ds, r'')
        end
      else ([], s)
  | [] => ([], s)
  end.

(** The optional minus sign of a number. *)
Definition minus_sign (s : pystr) : bool * pystr :=
  match s with
  | c :: s' => if c =? 45 then (true, s') else (false, s)
  | [] => (false, s)
  end.

(** The value of the exponent, [exp] being what [exp_part] read. *)
Definition exponent_value (exp : pystr) : Z :=
  match exp with
  | _ :: sg :: ds =>
      if sg =? 45 then (- int_of_digits ds)%Z
      else if sg =? 43 then int_of_digits ds
      else int_of_digits (sg :: ds)
  | _ => 0%Z
  end.

(** [float(text)] for the text of a number with a fraction or an
    exponent: the float nearest to the number written. *)
Definition float_of_numeral (neg : bool) (ip frac exp : pystr) : pyfloat :=
  let fd := skipn 1 frac in
  let mant := int_of_digits (ip ++ fd) in
  let e10 := (exponent_value exp - Z.of_nat (List.length fd))%Z in
  if (0 <=? e10)%Z then Float.nearest neg (mant * 10 ^ e10)%Z 1%Z
  else Float.nearest neg mant (10 ^ (- e10))%Z.

(** The check of [int(text)] on the number of digits ([PyLong_FromString]):
    it is made above 640 digits, and not at all when the limit is 0. *)
Definition exceeds_digit_limit (max_str_digits ndigits : nat) : bool :=
  ((640 <? ndigits) && (0 <? max_str_digits) && (max_str_digits <? ndigits))%nat.

Definition digit_limit_message (max_str_digits ndigits : nat) : pystr :=
  lit "Exceeds the limit (" ++ decimal max_str_digits
  ++ lit " digits) for integer string conversion: value has " ++ decimal ndigits
  ++ lit " digits; use sys.set_int_max_str_digits() to increase the limit".

(** The length of the run of digits at the head of [s], and of the longest
    run of digits in [s]. *)
Fixpoint digit_run (s : pystr) : nat :=
  match s with
  | [] => O
  | c :: s' => if is_digit c then S (digit_run s') else O
  end.

Fixpoint max_digit_run (s : pystr) : nat :=
  match s with
  | [] => O
  | _ :: s' => Nat.max (digit_run s) (max_digit_run s')
  end.

(** The number of opening brackets and braces in [s]. *)
Fixpoint count_open (s : pystr) : nat :=
  match s with
  | [] => O
  | c :: s' => if (c =? 91) || (c =? 123) then S (count_open s') else count_open s'
  end.

(** [r] is what is left of [s] after some of it was read. *)
Inductive suffix (r : pystr) : pystr -> Prop :=
| suffix_here : suffix r r
| suffix_cons (c : N) (s : pystr) : suffix r s -> suffix r (c :: s).

Section Scan.

(** [sys.get_int_max_str_digits()] *)
Variable max_str_digits : nat.

(** [_match_number_unicode]: an optional minus sign and an integer part,
    then a fraction and an exponent when present; a number with either is
    a float, and a number with neither is an [int], which [int(text)]
    refuses when it has too many digits. *)
Definition match_number (s : pystr) : scan json :=
  let (neg, s1) := minus_sign s in
  match int_part s1 with
  | None => StopIteration (List.length s)
  | Some (ip, r1) =>
      let (frac, r2) := frac_part r1 in
      let (exp, r3) := exp_part r2 in
      match frac ++ exp with
      | [] =>
          if exceeds_digit_limit max_str_digits (List.length ip)
          then Fails (ValueError (digit_limit_message max_str_digits (List.length ip)))
          else Scanned (JInt (if neg then - int_of_digits ip else int_of_digits ip)%Z) r3
      | _ :: _ => Scanned (JFloat (float_of_numeral neg ip frac exp)) r3
      end
  end.

(** The cases of [scan_once_unicode] for the named constants, which fall
    through to the number when the name is not there. *)
Definition scan_atom (s : pystr) : scan json :=
  if startswith s (lit "null") then Scanned JNull (skipn 4 s)
  else if startswith s (lit "true") then Scanned (JBool true) (skipn 4 s)
  else if startswith s (lit "false") then Scanned (JBool false) (skipn 5 s)
  else if startswith s (lit "NaN") then Scanned (JFloat NaN) (skipn 3 s)
  else if startswith s (lit "Infinity") then Scanned (JFloat (Infinite false)) (skipn 8 s)
  else if startswith s (lit "-Infinity") then Scanned (JFloat (Infinite true)) (skipn 9 s)
  else match_number s.

Definition scan_string_value (s : pystr) : scan json :=
  match scanstring s with
  | Scanned str r => Scanned (JStr str) r
  | StopIteration n => StopIteration n
  | ErrMsg m n => ErrMsg m n
  | Fails e => Fails e
  | OutOfFuel => OutOfFuel
  end.

Definition array_too_deep : exn :=
  RecursionError
    (lit "maximum recursion depth exceeded while decoding a JSON array from a unicode string").

Definition object_too_deep : exn :=
  RecursionError
    (lit "maximum recursion depth exceeded while decoding a JSON object from a unicode string").

(** [scan_once_unicode] with [_parse_array_unicode] and
    [_parse_object_unicode]; the two loops are entered after the white
    space that follows the opening bracket, when the bracket is not closed
    at once. [depth] is the number of arrays and objects that can still
    be opened: the recursive call for one is refused when none is
    left. *)
Fixpoint scan_once (fuel depth : nat) (s : pystr) {struct fuel} : scan json :=
  match fuel with
  | O => OutOfFuel
  | S fuel' =>
      match s with
      | [] => StopIteration 0
      | c :: s1 =>
          if c =? 34 then scan_string_value s1
          else if c =? 123 then
            match depth with
            | O => Fails object_too_deep
            | S depth' =>
                if startswith (skip_ws s1) [125] then Scanned (JObj []) (skipn 1 (skip_ws s1))
                else object_loop fuel' depth' (skip_ws s1) []
            end
          else if c =? 91 then
            match depth with
            | O => Fails array_too_deep
            | S depth' =>
                if startswith (skip_ws s1) [93] then Scanned (JArr []) (skipn 1 (skip_ws s1))
                else array_loop fuel' depth' (skip_ws s1) []
            end
          else scan_atom s
      end
  end

with array_loop (fuel depth : nat) (s : pystr) (values : list json) {struct fuel} : scan json :=
  match fuel with
  | O => OutOfFuel
  | S fuel' =>
      match scan_once fuel' depth s with
      | Scanned val r =>
          let values := values ++ [val] in
          if startswith (skip_ws r) [93] then Scanned (JArr values) (skipn 1 (skip_ws r))
          else if startswith (skip_ws r) [44] then
            array_loop fuel' depth (skip_ws (skipn 1 (skip_ws r))) values
          else ErrMsg "Expecting ',' delimiter" (List.length (skip_ws r))
      | StopIteration n => StopIteration n
      | ErrMsg m n => ErrMsg m n
      | Fails e => Fails e
      | OutOfFuel => OutOfFuel
      end
  end

with object_loop (fuel depth : nat) (s : pystr) (pairs : list (pystr * json)) {struct fuel}
    : scan json :=
  match fuel with
  | O => OutOfFuel
  | S fuel' =>
      if startswith s [34] then
        match scanstring (skipn 1 s) with
        | Scanned key r =>
            if startswith (skip_ws r) [58] then
              match scan_once fuel' depth (skip_ws (skipn 1 (skip_ws r))) with
              | Scanned val r2 =>
                  let pairs := dict_set key val pairs in
                  if startswith (skip_ws r2) [125] then
                    Scanned (JObj pairs) (skipn 1 (skip_ws r2))
                  else if startswith (skip_ws r2) [44] then
                    object_loop fuel' depth (skip_ws (skipn 1 (skip_ws r2))) pairs
                  else ErrMsg "Expecting ',' delimiter" (List.length (skip_ws r2))
              | StopIteration n => StopIteration n
              | ErrMsg m n => ErrMsg m n
              | Fails e => Fails e
              | OutOfFuel => OutOfFuel
              end
            else ErrMsg "Expecting ':' delimiter" (List.length (skip_ws r))
        | StopIteration n => StopIteration n
        | ErrMsg m n => ErrMsg m n
        | Fails e => Fails e
        | OutOfFuel => OutOfFuel
        end
      else ErrMsg "Expecting property name enclosed in double quotes" (List.length s)
  end.

End Scan.

(** [json.loads(s)] for a [str]: [JSONDecoder.decode] after the check for
    a byte order mark. The fuel is enough for any text. *)
Definition loads (lim : limits) (s : pystr) : res json :=
  if startswith s [65279] then
    Raise (JSONDecodeError (lit "Unexpected UTF-8 BOM (decode using utf-8-sig)") s 0)
  else
    match scan_once (int_max_str_digits lim) (2 * List.length s + 2) (recursion_limit lim)
            (skip_ws s) with
    | Scanned obj rest =>
        match skip_ws rest with
        | [] => Ok obj
        | r => Raise (JSONDecodeError (lit "Extra data") s (List.length s - List.length r))
        end
    | StopIteration n => Raise (JSONDecodeError (lit "Expecting value") s (List.length s - n))
    | ErrMsg m n => Raise (JSONDecodeError (lit m) s (List.length s - n))
    | Fails e => Raise e
    | OutOfFuel => Raise array_too_deep
    end.

(** A character that [str.strip] removes, or a backtick: what the text of
    a reply can hold after the document. *)
Definition trailer (c : N) : bool := isspace c || (c =? 96).

(** The first character of a value. *)
Definition value_start (x : N) : bool :=
  (x =? 34) || (x =? 123) || (x =? 91) || (x =? 110) || (x =? 116) || (x =? 102)
  || (x =? 78) || (x =? 73) || (x =? 45) || is_digit x.

(** A scanned value leaves less text than it was given. *)
Definition shorter (s : pystr) (res : scan json) : Prop :=
  match res with
  | Scanned _ r => (List.length r < List.length s)%nat
  | _ => True
  end.

(** A scanned value leaves a part of the text it was given. *)
Definition leaves (s : pystr) (res : scan json) : Prop :=
  match res with
  | Scanned _ r => suffix r s
  | _ => True
  end.

(** With fuel [f'] the scanner returns what it returns with fuel [f],
    when that is not a lack of fuel. *)
Definition agrees (max_str_digits f f' : nat) : Prop :=
  (forall d s, scan_once max_str_digits f d s <> OutOfFuel ->
     scan_once max_str_digits f' d s = scan_once max_str_digits f d s)
  /\ (forall d s values, array_loop max_str_digits f d s values <> OutOfFuel ->
        array_loop max_str_digits f' d s values = array_loop max_str_digits f d s values)
  /\ (forall d s pairs, object_loop max_str_digits f d s pairs <> OutOfFuel ->
        object_loop max_str_digits f' d s pairs = object_loop max_str_digits f d s pairs).

(** What the scanner can raise that is not a [JSONDecodeError], on the
    text [s] with [depth] arrays and objects left to open: a
    [RecursionError], and then [s] has more opening brackets than that;
    a [ValueError] for an integer of [n] digits, and then [s] has a run of
    [n] digits and [n] is above the limit. *)
Definition limit_error (max_str_digits depth : nat) (s : pystr) (e : exn) : Prop :=
  ((e = array_too_deep \/ e = object_too_deep) /\ (depth < count_open s)%nat)
  \/ (exists n, e = ValueError (digit_limit_message max_str_digits n)
               /\ exceeds_digit_limit max_str_digits n = true
               /\ (n <= max_digit_run s)%nat).

(** A scanner that does not read the character [c] at the end of its
    text: it scans the same value when [c] is taken away. *)
Definition snoc_ok (c : N) (F : pystr -> scan json) : Prop :=
  forall s0 v rest,
    F (s0 ++ [c]) = Scanned v rest ->
    exists rest0, rest = rest0 ++ [c] /\ F s0 = Scanned v rest0.

End Json.


(** [str(e)] for a [JSONDecodeError]: the message, then the line, the
    column and the position of the error in the document. *)
Fixpoint after_last_newline (s acc : pystr) : pystr :=
  match s with
  | [] => acc
  | c :: s' => if N.eqb c 10 then after_last_newline s' [] else after_last_newline s' (acc ++ [c])
  end.

Definition JSONDecodeError_str (msg doc : pystr) (pos : nat) : pystr :=
  let before := firstn pos doc in
  let lineno := S (count_occ N.eq_dec before 10%N) in
  let colno := S (List.length (after_last_newline before [])) in
  msg ++ lit ": line " ++ decimal lineno ++ lit " column " ++ decimal colno
      ++ lit " (char " ++ decimal pos ++ lit ")".

(** ** Response models

    The models are pydantic [BaseModel]s with the default configuration:
    validation is in lax mode, unknown keys are ignored, every error of a
    document is collected. A JSON value is a [str] only when it is a
    string; it is an [int] when it is an integer or a boolean, and when it
    is a float or a string that the library converts to an integer
    ([float_as_int] and [str_as_int] of pydantic-core 2). *)

Record RelatedIssue := {
  id : pystr;
  title : pystr;
  url : pystr
}.

Record TraceFrame := {
  func : pystr;
  note : pystr
}.

Record AnalysisReport := {
  crash_type : pystr;
  severity : pystr;
  confidence : Z;
  root_cause : pystr;
  detailed_analysis : pystr;
  affected_subsystem : pystr;
  probable_trigger : pystr;
  suggested_fixes : list pystr;
  related_issues : list RelatedIssue;
  annotated_trace : list TraceFrame
}.

Inductive vres (A : Type) :=
| Valid (a : A)
| Invalid (errors : list error_detail).
Arguments Valid {A} a.
Arguments Invalid {A} errors.

(** Validation goes on after a failed field: the errors add up. *)
Definition vap {A B} (f : vres (A -> B)) (x : vres A) : vres B :=
  match f, x with
  | Valid g, Valid a => Valid (g a)
  | Valid _, Invalid e => Invalid e
  | Invalid e, Valid _ => Invalid e
  | Invalid e1, Invalid e2 => Invalid (e1 ++ e2)
  end.

Notation "f <*> x" := (vap f x) (at level 50, left associativity).

Definition validator (A : Type) := list loc_item -> json -> vres A.

(** The conversion of a float to an [int]: the float is to be finite,
    without fractional part, and strictly between [-2^63] and [2^63]. The
    result is the integer, or the type of the error. *)
Definition float_as_int (f : pyfloat) : Z + string :=
  match f with
  | NaN | Infinite _ => inr "finite_number"%string
  | Finite neg m e =>
      if negb (Float.integral m e) then inr "int_from_float"%string
      else
        let z := Float.to_Z neg m e in
        if ((- 2 ^ 63 <? z) && (z <? 2 ^ 63))%Z then inl z
        else inr "int_parsing_size"%string
  end.

(** The conversion of a [str] to an [int]. The text is first read as an
    integer of JSON, which can have up to 4300 digits; when that fails it
    is cleaned (white space around it, a plus sign, zeros in front, a
    fraction of zeros and single underscores between digits are dropped)
    and read again. *)
Module IntText.

Local Open Scope N_scope.

(** [char::is_whitespace], which [str::trim] removes. *)
Definition is_whitespace (c : N) : bool :=
  ((9 <=? c) && (c <=? 13)) || (c =? 32) || (c =? 133) || (c =? 160) || (c =? 5760)
  || ((8192 <=? c) && (c <=? 8202))
  || (c =? 8232) || (c =? 8233) || (c =? 8239) || (c =? 8287) || (c =? 12288).

Fixpoint trim_start (s : pystr) : pystr :=
  match s with
  | [] => []
  | c :: s' => if is_whitespace c then trim_start s' else s
  end.

Definition trim (s : pystr) : pystr := rev (trim_start (rev (trim_start s))).

Inductive number_int :=
| Int (z : Z)
| NumberOutOfRange
| InvalidNumber.

(** [NumberInt::try_from]: an optional minus sign and the integer part of
    a JSON number, and nothing after it. *)
Definition parse (s : pystr) : number_int :=
  let (neg, s1) := Json.minus_sign s in
  match Json.int_part s1 with
  | Some (ip, r) =>
      if (4300 <? List.length ip)%nat then NumberOutOfRange
      else match r with
           | [] => Int (if neg then - Json.int_of_digits ip else Json.int_of_digits ip)%Z
           | _ :: _ => InvalidNumber
           end
  | None => InvalidNumber
  end.

Definition strip_plus (s : pystr) : pystr :=
  match s with
  | c :: s' => if c =? 43 then s' else s
  | [] => []
  end.

(** The text after zeros in front: from the first digit that is not a
    zero, or from the last character before a point; [prev] is the
    character before [s]. *)
Fixpoint after_zeros (prev : N) (s : pystr) : option pystr :=
  match s with
  | [] => Some [prev]
  | c :: s' =>
      if (c =? 48) || (c =? 95) then after_zeros c s'
      else if (49 <=? c) && (c <=? 57) then Some s
      else if c =? 46 then Some (prev :: s)
      else None
  end.

Definition strip_leading_zeros (s : pystr) : option pystr :=
  match s with
  | [] => None
  | c :: s' =>
      if c =? 48 then after_zeros c s'
      else if ((49 <=? c) && (c <=? 57)) || (c =? 45) then Some s
      else None
  end.

(** The text before the point, when only zeros follow the point. *)
Definition strip_decimal_zeros (s : pystr) : pystr :=
  match partition [46] s with
  | Some (a, b) => if forallb (N.eqb 48) b then a else s
  | None => s
  end.

(** The text without its underscores, when it has some, none of them at
    either end and no two of them in a row. *)
Definition strip_underscores (s : pystr) : option pystr :=
  if startswith s [95] || endswith s [95] || negb (contains s [95]) || contains s [95; 95]
  then None
  else Some (List.filter (fun c => negb (c =? 95)) s).

Definition clean_int_str (s : pystr) : option pystr :=
  match strip_leading_zeros (strip_plus (trim s)) with
  | None => None
  | Some t =>
      let t := strip_decimal_zeros t in
      match strip_underscores t with
      | Some t' => Some t'
      | None => if (List.length s =? List.length t)%nat then None else Some t
      end
  end.



End IntText.

Definition str_as_int (s : pystr) : Z + string :=
  match IntText.parse s with
  | IntText.Int z => inl z
  | IntText.NumberOutOfRange => inr "int_parsing_size"%string
  | IntText.InvalidNumber =>
      match IntText.clean_int_str s with
      | Some t =>
          match IntText.parse t with
          | IntText.Int z => inl z
          | _ => inr "int_parsing"%string
          end
      | None => inr "int_parsing"%string
      end
  end.

Section Models.

Definition validate_str : validator pystr :=
  fun loc v =>
    match v with
    | JStr s => Valid s
    | _ => Invalid [ErrorDetail "string_type" loc]
    end.

Definition validate_int : validator Z :=
  fun loc v =>
    match v with
    | JInt n => Valid n
    | JBool b => Valid (if b then 1 else 0)%Z
    | JFloat f =>
        match float_as_int f with
        | inl n => Valid n
        | inr type => Invalid [ErrorDetail type loc]
        end
    | JStr s =>
        match str_as_int s with
        | inl n => Valid n
        | inr type => Invalid [ErrorDetail type loc]
        end
    | _ => Invalid [ErrorDetail "int_type" loc]
    end.

Fixpoint validate_items {A} (item : validator A) (loc : list loc_item) (i : nat)
    (items : list json) : vres (list A) :=
  match items with
  | [] => Valid []
  | v :: items' =>
      Valid cons <*> item (loc ++ [LocIndex i]) v <*> validate_items item loc (S i) items'
  end.

Definition validate_list {A} (item : validator A) : validator (list A) :=
  fun loc v =>
    match v with
    | JArr items => validate_items item loc 0 items
    | _ => Invalid [ErrorDetail "list_type" loc]
    end.

(** A field without a default: it is an error for it to be missing. *)
Definition required {A} (name : string) (val : validator A) (loc : list loc_item)
    (data : list (pystr * json)) : vres A :=
  match dict_get (lit name) data with
  | Some v => val (loc ++ [LocField (lit name)]) v
  | None => Invalid [ErrorDetail "missing" (loc ++ [LocField (lit name)])]
  end.

(** A field with a default. *)
Definition optional {A} (name : string) (val : validator A) (default : A)
    (loc : list loc_item) (data : list (pystr * json)) : vres A :=
  match dict_get (lit name) data with
  | Some v => val (loc ++ [LocField (lit name)]) v
  | None => Valid default
  end.

Definition validate_RelatedIssue : validator RelatedIssue :=
  fun loc v =>
    match v with
    | JObj data =>
        Valid Build_RelatedIssue
          <*> required "id" validate_str loc data
          <*> required "title" validate_str loc data
          <*> optional "url" validate_str (lit "#") loc data
    | _ => Invalid [ErrorDetail "model_type" loc]
    end.

Definition validate_TraceFrame : validator TraceFrame :=
  fun loc v =>
    match v with
    | JObj data =>
        Valid Build_TraceFrame
          <*> required "func" validate_str loc data
          <*> required "note" validate_str loc data
    | _ => Invalid [ErrorDetail "model_type" loc]
    end.

Definition validate_AnalysisReport (data : list (pystr * json)) : vres AnalysisReport :=
  Valid Build_AnalysisReport
    <*> required "crash_type" validate_str [] data
    <*> required "severity" validate_str [] data
    <*> required "confidence" validate_int [] data
    <*> required "root_cause" validate_str [] data
    <*> required "detailed_analysis" validate_str [] data
    <*> required "affected_subsystem" validate_str [] data
    <*> required "probable_trigger" validate_str [] data
    <*> required "suggested_fixes" (validate_list validate_str) [] data
    <*> required "related_issues" (validate_list validate_RelatedIssue) [] data
    <*> required "annotated_trace" (validate_list validate_TraceFrame) [] data.

(** [AnalysisReport] called with [report] unpacked into keyword arguments:
    the call itself needs a mapping. *)
Definition AnalysisReport_init (report : json) : res AnalysisReport :=
  match report with
  | JObj data =>
      match validate_AnalysisReport data with
      | Valid r => Ok r
      | Invalid errors => Raise (ValidationError (lit "AnalysisReport") errors)
      end
  | _ => Raise TypeError
  end.

(** The limits of the interpreter that runs the handler. *)
Variable lim : limits.

(** Lines 138 and 139: the stripped text is parsed and the report built. *)
Definition parse_report (raw : pystr) : res AnalysisReport :=
  report <- Json.loads lim raw ;;
  AnalysisReport_init report.

(** ** The endpoint *)

Inductive content_block :=
| TextBlock (text : pystr)
| ToolUseBlock.

(** [block.text] *)
Definition block_text (b : content_block) : res pystr :=
  match b with
  | TextBlock text => Ok text
  | ToolUseBlock => Raise AttributeError
  end.

(** The arguments of [client.messages.create]. *)
Record create_call := {
  model : pystr;
  max_tokens : Z;
  system : pystr;
  messages : list (pystr * pystr)
}.

(** The detail of an [HTTPException]: a fixed text, or a prefix followed
    by [str(e)]. *)
Inductive http_detail :=
| Detail (text : pystr)
| DetailStr (prefix : pystr) (e : exn).

Record HTTPException := {
  status_code : Z;
  detail : http_detail
}.

Inductive outcome :=
| Returns (report : AnalysisReport)
| Raises (e : HTTPException).

(** The instruction text, a constant of the source. *)
Variable SYSTEM_PROMPT : pystr.

(** The completion client: the content of the message it returns for a
    call, or the exception it raises. *)
Variable messages_create : create_call -> res (list content_block).

(** The arguments [analyze_crash] passes to the client. *)
Definition completion_call (req : AnalyzeRequest) : create_call :=
  {| model := lit "claude-sonnet-4-20250514";
     max_tokens := 4096;
     system := SYSTEM_PROMPT;
     messages := [(lit "user", build_user_prompt req)] |}.

(** Lines 129 to 139: from the text of the reply to the report. *)
Definition validate_reply (text : pystr) : res AnalysisReport :=
  raw <- strip_fence text ;;
  parse_report raw.

(** The two [except] clauses. *)
Definition on_exception (e : exn) : HTTPException :=
  match e with
  | JSONDecodeError _ _ _ =>
      {| status_code := 500; detail := DetailStr (lit "LLM returned invalid JSON: ") e |}
  | _ =>
      {| status_code := 500; detail := DetailStr (lit "Analysis failed: ") e |}
  end.

(** [analyze_crash]: the calls made to the client, in order, and the
    outcome of the request. *)
Definition analyze_crash (req : AnalyzeRequest) : list create_call * outcome :=
  if negb (truthy (strip (log_text req))) then
    ([], Raises {| status_code := 400; detail := Detail (lit "log_text cannot be empty") |})
  else
    let call := completion_call req in
    let body :=
      content <- messages_create call ;;
      block <- index content 0 ;;
      text <- block_text block ;;
      validate_reply text in
    ([call],
     match body with
     | Ok report => Returns report
     | Raise e => Raises (on_exception e)
     end).

End Models.

(** ** The user message as the specification words it

    The log in a delimited block, then a line for each optional field that
    is not empty, then the closing instruction; the pieces are separated
    by a blank line. *)

Definition optional_line (label : string) (value : pystr) : pystr :=
  match value with
  | [] => []
  | _ :: _ => [10; 10]%N ++ lit label ++ value
  end.

Definition log_block (log : pystr) : pystr :=
  lit "<kernel_log>" ++ [10%N] ++ log ++ [10%N] ++ lit "</kernel_log>".

Definition closing_instruction : pystr :=
  [10%N] ++ lit "Analyze this crash and respond with the JSON report.".

Definition rendered_message (req : AnalyzeRequest) : pystr :=
  log_block (log_text req)
  ++ optional_line "Kernel version (user-provided): " (kernel_version req)
  ++ optional_line "Distribution: " (distro req)
  ++ optional_line "Additional context from the engineer: " (additional_context req)
  ++ [10; 10]%N ++ closing_instruction.

(** A reply wrapped in one fence pair, with a language tag on the first
    line. *)
Definition fenced (tag inner : pystr) : pystr :=
  fence ++ tag ++ [10%N] ++ inner ++ [10%N] ++ fence.


(** ** Documents and reports *)

(** The names of the fields of [AnalysisReport]. *)
Definition report_fields : list pystr :=
  List.map lit ["crash_type"; "severity"; "confidence"; "root_cause"; "detailed_analysis";
                "affected_subsystem"; "probable_trigger"; "suggested_fixes";
                "related_issues"; "annotated_trace"]%string.

(** [d.update(extra)] *)
Definition dict_update (d extra : list (pystr * json)) : list (pystr * json) :=
  fold_left (fun d kv => dict_set (fst kv) (snd kv) d) extra d.



(** [r] with another crash type and severity. *)
Definition with_enums (ct sev : pystr) (r : AnalysisReport) : AnalysisReport :=
  {| crash_type := ct; severity := sev; confidence := confidence r;
     root_cause := root_cause r; detailed_analysis := detailed_analysis r;
     affected_subsystem := affected_subsystem r; probable_trigger := probable_trigger r;
     suggested_fixes := suggested_fixes r; related_issues := related_issues r;
     annotated_trace := annotated_trace r |}.

(** A document of the full shape of a model: an object that gives every
    field of the model, each with a value of the declared type. The
    relations say which report the document writes down. *)
Definition issue_doc (i : RelatedIssue) (v : json) : Prop :=
  exists data,
    v = JObj data
    /\ dict_get (lit "id") data = Some (JStr (id i))
    /\ dict_get (lit "title") data = Some (JStr (title i))
    /\ dict_get (lit "url") data = Some (JStr (url i)).

Definition frame_doc (f : TraceFrame) (v : json) : Prop :=
  exists data,
    v = JObj data
    /\ dict_get (lit "func") data = Some (JStr (func f))
    /\ dict_get (lit "note") data = Some (JStr (note f)).

Definition report_doc (r : AnalysisReport) (v : json) : Prop :=
  exists data issues frames,
    v = JObj data
    /\ dict_get (lit "crash_type") data = Some (JStr (crash_type r))
    /\ dict_get (lit "severity") data = Some (JStr (severity r))
    /\ dict_get (lit "confidence") data = Some (JInt (confidence r))
    /\ dict_get (lit "root_cause") data = Some (JStr (root_cause r))
    /\ dict_get (lit "detailed_analysis") data = Some (JStr (detailed_analysis r))
    /\ dict_get (lit "affected_subsystem") data = Some (JStr (affected_subsystem r))
    /\ dict_get (lit "probable_trigger") data = Some (JStr (probable_trigger r))
    /\ dict_get (lit "suggested_fixes") data
       = Some (JArr (List.map JStr (suggested_fixes r)))
    /\ dict_get (lit "related_issues") data = Some (JArr issues)
    /\ Forall2 issue_doc (related_issues r) issues
    /\ dict_get (lit "annotated_trace") data = Some (JArr frames)
    /\ Forall2 frame_doc (annotated_trace r) frames.

(** ** Sample inputs *)

Definition crash_request (log : string) : AnalyzeRequest :=
  {| log_text := lit log; kernel_version := []; distro := []; additional_context := [] |}.

(** A client that answers every call with one text block. *)
Definition reply_with (text : pystr) : create_call -> res (list content_block) :=
  fun _ => Ok [TextBlock text].

(** The limits of an interpreter with its defaults, for a handler that
    leaves 900 levels of recursion. *)
Definition sample_limits : limits :=
  {| recursion_limit := 900; int_max_str_digits := 4300 |}.

(** An interpreter that does not limit the digits of an integer. *)
Definition without_digit_limit : limits :=
  {| recursion_limit := 900; int_max_str_digits := 0 |}.

(** An interpreter with room for more recursion. *)
Definition deep_limits : limits :=
  {| recursion_limit := 2000; int_max_str_digits := 4300 |}.

(** The error of a document whose [confidence] is refused. *)
Definition confidence_error (type : string) : exn :=
  ValidationError (lit "AnalysisReport") [ErrorDetail type [LocField (lit "confidence")]].

(** The sample reply with another text for its confidence. *)
Definition sample_text_with (conf : pystr) : pystr :=
  dq "{'crash_type': 'Oops', 'severity': 'high', 'confidence': " ++ conf ++ dq ",
  'root_cause': 'NULL pointer dereference in kfree',
  'detailed_analysis': 'RIP points into kfree',
  'affected_subsystem': 'memory management',
  'probable_trigger': 'double free',
  'suggested_fixes': ['Update the kernel', 'Run with KASAN'],
  'related_issues': [{'id': 'CVE-2021-0001', 'title': 'slab double free', 'url': '#'}],
  'annotated_trace': [{'func': 'kfree+0x12', 'note': 'frees the object'}]}
".

(** A numeral of 4301 digits, and the number it writes. *)
Definition long_numeral : pystr := repeat 49%N 4301.
Definition long_number : Z := Json.int_of_digits long_numeral.

(** A text of 1100 opening brackets. *)
Definition deep_text : pystr := repeat 91%N 1100.

Definition sample_report (conf : Z) : AnalysisReport :=
  {| crash_type := lit "Oops";
     severity := lit "high";
     confidence := conf;
     root_cause := lit "NULL pointer dereference in kfree";
     detailed_analysis := lit "RIP points into kfree";
     affected_subsystem := lit "memory management";
     probable_trigger := lit "double free";
     suggested_fixes := [lit "Update the kernel"; lit "Run with KASAN"];
     related_issues := [{| id := lit "CVE-2021-0001"; title := lit "slab double free";
                           url := lit "#" |}];
     annotated_trace := [{| func := lit "kfree+0x12"; note := lit "frees the object" |}] |}.

Definition sample_issue : list (pystr * json) :=
  [(lit "id", JStr (lit "CVE-2021-0001"));
   (lit "title", JStr (lit "slab double free"));
   (lit "url", JStr (lit "#"))].

Definition sample_frame : list (pystr * json) :=
  [(lit "func", JStr (lit "kfree+0x12"));
   (lit "note", JStr (lit "frees the object"))].

Definition sample_data (conf : json) : list (pystr * json) :=
  [ (lit "crash_type", JStr (lit "Oops"));
    (lit "severity", JStr (lit "high"));
    (lit "confidence", conf);
    (lit "root_cause", JStr (lit "NULL pointer dereference in kfree"));
    (lit "detailed_analysis", JStr (lit "RIP points into kfree"));
    (lit "affected_subsystem", JStr (lit "memory management"));
    (lit "probable_trigger", JStr (lit "double free"));
    (lit "suggested_fixes", JArr [JStr (lit "Update the kernel"); JStr (lit "Run with KASAN")]);
    (lit "related_issues", JArr [JObj sample_issue]);
    (lit "annotated_trace", JArr [JObj sample_frame]) ].

Definition sample_text : pystr :=
  dq "{'crash_type': 'Oops', 'severity': 'high', 'confidence': 85,
  'root_cause': 'NULL pointer dereference in kfree',
  'detailed_analysis': 'RIP points into kfree',
  'affected_subsystem': 'memory management',
  'probable_trigger': 'double free',
  'suggested_fixes': ['Update the kernel', 'Run with KASAN'],
  'related_issues': [{'id': 'CVE-2021-0001', 'title': 'slab double free', 'url': '#'}],
  'annotated_trace': [{'func': 'kfree+0x12', 'note': 'frees the object'}]}
".

(** The sample document without its [confidence], and a reply that
    writes it. *)
Definition sample_without_confidence : list (pystr * json) :=
  List.filter (fun kv => negb (PyStr.eqb (fst kv) (lit "confidence"))) (sample_data JNull).

Definition sample_text_without_confidence : pystr :=
  dq "{'crash_type': 'Oops', 'severity': 'high',
  'root_cause': 'NULL pointer dereference in kfree',
  'detailed_analysis': 'RIP points into kfree',
  'affected_subsystem': 'memory management',
  'probable_trigger': 'double free',
  'suggested_fixes': ['Update the kernel', 'Run with KASAN'],
  'related_issues': [{'id': 'CVE-2021-0001', 'title': 'slab double free', 'url': '#'}],
  'annotated_trace': [{'func': 'kfree+0x12', 'note': 'frees the object'}]}
".

(** ** Further documents and inputs *)

(** A related issue written with or without its [url]: without it, the
    issue has the default. *)
Definition issue_doc_opt (i : RelatedIssue) (v : json) : Prop :=
  exists data,
    v = JObj data
    /\ dict_get (lit "id") data = Some (JStr (id i))
    /\ dict_get (lit "title") data = Some (JStr (title i))
    /\ (dict_get (lit "url") data = Some (JStr (url i))
        \/ (dict_get (lit "url") data = None /\ url i = lit "#")).

(** [r] with other related issues. *)
Definition with_related_issues (issues : list RelatedIssue) (r : AnalysisReport)
    : AnalysisReport :=
  {| crash_type := crash_type r; severity := severity r; confidence := confidence r;
     root_cause := root_cause r; detailed_analysis := detailed_analysis r;
     affected_subsystem := affected_subsystem r; probable_trigger := probable_trigger r;
     suggested_fixes := suggested_fixes r; related_issues := issues;
     annotated_trace := annotated_trace r |}.

(** A request given by its four fields. *)
Definition request (log kv d ctx : pystr) : AnalyzeRequest :=
  {| log_text := log; kernel_version := kv; distro := d; additional_context := ctx |}.

(** A client that fails with the error [e]. *)
Definition failing_client (e : exn) : create_call -> res (list content_block) :=
  fun _ => Raise e.

(** A client whose message has no content. *)
Definition silent_client : create_call -> res (list content_block) :=
  fun _ => Ok [].

(** What validation reports for the empty object: each field, missing. *)
Definition all_fields_missing : list error_detail :=
  List.map (fun name => ErrorDetail "missing" [LocField name]) report_fields.

(** A related issue written without its [url]. *)
Definition sample_issue_without_url : list (pystr * json) :=
  [(lit "id", JStr (lit "CVE-2021-0001"));
   (lit "title", JStr (lit "slab double free"))].

(** * Examples *)

Example strip_fence_json :
  strip_fence (lit "  ```json" ++ [10%N] ++ lit "{}" ++ [10%N] ++ lit "```  ")
  = Ok (lit "{}").
Proof. reflexivity. Qed.

Example strip_fence_no_newline :
  strip_fence (lit "```") = Raise (IndexError (lit "list index out of range")).
Proof. reflexivity. Qed.

Example loads_scalar : Json.loads sample_limits (dq " {'a': [1, -2.5e3, true, null, 'x\u00e9\n']} ")
  = Ok (JObj [(lit "a", JArr [JInt 1; JFloat (Finite true 5497558138880000 (-41)); JBool true; JNull;
                              JStr [120; 233; 10]%N])]).
Proof. vm_compute. reflexivity. Qed.

Example loads_surrogate_pair : Json.loads sample_limits (dq "'\ud83d\ude00'") = Ok (JStr [128512%N]).
Proof. vm_compute. reflexivity. Qed.

Example loads_duplicate_key : Json.loads sample_limits (dq "{'a': 1, 'b': 2, 'a': 3}")
  = Ok (JObj [(lit "a", JInt 3); (lit "b", JInt 2)]).
Proof. vm_compute. reflexivity. Qed.

Example loads_not_json : Json.loads sample_limits (lit "not json at all")
  = Raise (JSONDecodeError (lit "Expecting value") (lit "not json at all") 0).
Proof. vm_compute. reflexivity. Qed.

Example loads_extra_data : Json.loads sample_limits (lit "{} x")
  = Raise (JSONDecodeError (lit "Extra data") (lit "{} x") 3).
Proof. vm_compute. reflexivity. Qed.

Example loads_missing_comma : Json.loads sample_limits (lit "[1 2]")
  = Raise (JSONDecodeError (lit "Expecting ',' delimiter") (lit "[1 2]") 3).
Proof. vm_compute. reflexivity. Qed.

Example JSONDecodeError_str_example :
  JSONDecodeError_str (lit "Expecting value") (lit "not json at all") 0
  = lit "Expecting value: line 1 column 1 (char 0)".
Proof. vm_compute. reflexivity. Qed.

Example loads_sample_text : Json.loads sample_limits sample_text = Ok (JObj (sample_data (JInt 85))).
Proof. vm_compute. reflexivity. Qed.

Example loads_floats :
  Json.loads sample_limits (lit "[85.5, 0.1, 1e23, 85.0, 5e-324, 1e400, -1e400, NaN]")
  = Ok (JArr [JFloat (Finite false 6016527627190272 (-46));
              JFloat (Finite false 7205759403792794 (-56));
              JFloat (Finite false 5960464477539062 24);
              JFloat (Finite false 5981343255101440 (-46));
              JFloat (Finite false 1 (-1074));
              JFloat (Infinite false); JFloat (Infinite true); JFloat NaN]).
Proof. vm_compute. reflexivity. Qed.

Example nearest_ties_to_even :
  Float.nearest false 9007199254740993 1 = Finite false 4503599627370496 1
  /\ Float.nearest false 9007199254740995 1 = Finite false 4503599627370498 1.
Proof. split; vm_compute; reflexivity. Qed.

Example float_as_int_examples :
  List.map float_as_int
    [Finite false 5981343255101440 (-46); Finite false 6016527627190272 (-46);
     Infinite true; NaN; Finite false 4503599627370496 11; Finite true 0 (-1074)]
  = [inl 85%Z; inr "int_from_float"%string; inr "finite_number"%string;
     inr "finite_number"%string; inr "int_parsing_size"%string; inl 0%Z].
Proof. vm_compute. reflexivity. Qed.

Example str_as_int_examples :
  List.map (fun s => str_as_int (lit s))
    ["85"; "-7"; " 85 "; "+85"; "0085"; "85.0"; "1_000"; "high"; "85%"; "85.5"; "1e2"; ""]%string
  = [inl 85%Z; inl (-7)%Z; inl 85%Z; inl 85%Z; inl 85%Z; inl 85%Z; inl 1000%Z;
     inr "int_parsing"%string; inr "int_parsing"%string; inr "int_parsing"%string;
     inr "int_parsing"%string; inr "int_parsing"%string].
Proof. vm_compute. reflexivity. Qed.

Example str_as_int_too_long : str_as_int long_numeral = inr "int_parsing_size"%string.
Proof. vm_compute. reflexivity. Qed.

Example loads_long_integer :
  Json.loads sample_limits long_numeral
  = Raise (ValueError
             (lit "Exceeds the limit (4300 digits) for integer string conversion: value has 4301 digits; use sys.set_int_max_str_digits() to increase the limit")).
Proof. vm_compute. reflexivity. Qed.

Example loads_integer_at_the_limit :
  Json.loads sample_limits (repeat 49%N 4300) = Ok (JInt (Json.int_of_digits (repeat 49%N 4300))).
Proof. vm_compute. reflexivity. Qed.

Example loads_nesting :
  Json.loads {| recursion_limit := 2; int_max_str_digits := 4300 |} (lit "[[1], [2], {}]")
  = Ok (JArr [JArr [JInt 1]; JArr [JInt 2]; JObj []])
  /\ Json.loads {| recursion_limit := 2; int_max_str_digits := 4300 |} (lit "[[{}]]")
     = Raise Json.object_too_deep
  /\ Json.loads {| recursion_limit := 2; int_max_str_digits := 4300 |} (lit "[1 2 [[[")
     = Raise (JSONDecodeError (lit "Expecting ',' delimiter") (lit "[1 2 [[[") 3).
Proof. repeat split; vm_compute; reflexivity. Qed.

Example confidence_fraction_refused :
  Json.loads sample_limits (sample_text_with (lit "85.5"))
  = Ok (JObj (sample_data (JFloat (Finite false 6016527627190272 (-46)))))
  /\ AnalysisReport_init (JObj (sample_data (JFloat (Finite false 6016527627190272 (-46)))))
     = Raise (confidence_error "int_from_float").
Proof. split; vm_compute; reflexivity. Qed.

Example confidence_word_refused :
  AnalysisReport_init (JObj (sample_data (JStr (lit "high"))))
  = Raise (confidence_error "int_parsing").
Proof. vm_compute. reflexivity. Qed.

Example init_sample (n : Z) :
  AnalysisReport_init (JObj (sample_data (JInt n))) = Ok (sample_report n).
Proof. reflexivity. Qed.

(** * Properties *)

(** ** Strings *)

Lemma eqb_eq (a b : pystr) : PyStr.eqb a b = true <-> a = b.
Proof.
  revert b; induction a as [|x a IH]; intros [|y b]; simpl; split;
    try discriminate; try reflexivity.
  - intros H. apply andb_true_iff in H as [H1 H2].
    apply N.eqb_eq in H1. apply IH in H2. congruence.
  - intros H. injection H as -> ->. rewrite N.eqb_refl. simpl. now apply IH.
Qed.

Lemma eqb_refl (a : pystr) : PyStr.eqb a a = true.
Proof. now apply eqb_eq. Qed.

Lemma eqb_neq (a b : pystr) : PyStr.eqb a b = false <-> a <> b.
Proof.
  split.
  - intros H E. apply eqb_eq in E. congruence.
  - intros H. destruct (PyStr.eqb a b) eqn:E; [|reflexivity].
    apply eqb_eq in E. contradiction.
Qed.

Lemma lstrip_app_single (l : pystr) (c : N) :
  lstrip (l ++ [c]) =
  match lstrip l with
  | [] => if isspace c then [] else [c]
  | r => r ++ [c]
  end.
Proof.
  induction l as [|x l IH]; simpl.
  - destruct (isspace c); reflexivity.
  - destruct (isspace x); [exact IH | reflexivity].
Qed.

Lemma rstrip_cons (c : N) (s : pystr) :
  rstrip (c :: s) =
  match rstrip s with
  | [] => if isspace c then [] else [c]
  | r => c :: r
  end.
Proof.
  unfold rstrip. simpl. rewrite lstrip_app_single.
  destruct (lstrip (rev s)) as [|y r]; simpl.
  - destruct (isspace c); reflexivity.
  - rewrite rev_app_distr. simpl. destruct (rev r); reflexivity.
Qed.

Lemma rstrip_snoc (s : pystr) (c : N) :
  rstrip (s ++ [c]) = if isspace c then rstrip s else s ++ [c].
Proof.
  unfold rstrip. rewrite rev_app_distr. simpl.
  destruct (isspace c); [reflexivity|].
  change (rev (c :: rev s) = s ++ [c]). simpl. now rewrite rev_involutive.
Qed.

Lemma lstrip_idem (s : pystr) : lstrip (lstrip s) = lstrip s.
Proof.
  induction s as [|c s IH]; simpl; [reflexivity|].
  destruct (isspace c) eqn:E; [exact IH|]. simpl. now rewrite E.
Qed.

Lemma rstrip_idem (s : pystr) : rstrip (rstrip s) = rstrip s.
Proof. unfold rstrip. now rewrite rev_involutive, lstrip_idem. Qed.

Lemma lstrip_rstrip_comm (s : pystr) : lstrip (rstrip s) = rstrip (lstrip s).
Proof.
  induction s as [|c s IH]; [reflexivity|].
  simpl lstrip at 2. destruct (isspace c) eqn:E.
  - rewrite <- IH, rstrip_cons. destruct (rstrip s); rewrite ?E; simpl; rewrite ?E; reflexivity.
  - rewrite rstrip_cons. destruct (rstrip s); rewrite ?E; simpl; rewrite ?E; reflexivity.
Qed.

Lemma strip_idem (s : pystr) : strip (strip s) = strip s.
Proof.
  unfold strip. rewrite (lstrip_rstrip_comm (lstrip (rstrip s))).
  now rewrite lstrip_idem, <- lstrip_rstrip_comm, rstrip_idem.
Qed.


Lemma lstrip_all_space (s : pystr) : forallb isspace s = true -> lstrip s = [].
Proof.
  induction s as [|c s IH]; simpl; [reflexivity|].
  intros H. apply andb_true_iff in H as [-> H]. auto.
Qed.

Lemma rstrip_all_space (s : pystr) : forallb isspace s = true -> rstrip s = [].
Proof.
  intros H. unfold rstrip. rewrite lstrip_all_space; [reflexivity|].
  rewrite forallb_forall in *. intros x Hx. apply H. now apply in_rev.
Qed.

Lemma strip_all_space (s : pystr) : forallb isspace s = true -> strip s = [].
Proof. intros H. unfold strip. now rewrite rstrip_all_space. Qed.

Lemma strip_nil_all_space (s : pystr) : strip s = [] -> forallb isspace s = true.
Proof.
  unfold strip. rewrite lstrip_rstrip_comm.
  induction s as [|c s IH]; simpl; [reflexivity|].
  destruct (isspace c) eqn:E; simpl; [exact IH|].
  rewrite rstrip_cons. destruct (rstrip s); rewrite ?E; discriminate.
Qed.

(** Trailing whitespace does not survive [strip]. *)
Lemma strip_app_space (s w : pystr) : forallb isspace w = true -> strip (s ++ w) = strip s.
Proof.
  intros H. unfold strip. f_equal. unfold rstrip. f_equal.
  rewrite rev_app_distr.
  assert (Hr : forallb isspace (rev w) = true).
  { rewrite forallb_forall in *. intros x Hx. apply H. now apply in_rev. }
  induction (rev w) as [|x l IH]; simpl; [reflexivity|].
  simpl in Hr. apply andb_true_iff in Hr as [-> Hr]. auto.
Qed.

(** A string that begins and ends with a character that is not whitespace
    is its own [strip]. *)
Lemma strip_fixed (a b : N) (s : pystr) :
  isspace a = false -> isspace b = false -> strip (a :: s ++ [b]) = a :: s ++ [b].
Proof.
  intros Ha Hb. unfold strip.
  change (a :: s ++ [b]) with ((a :: s) ++ [b]).
  rewrite rstrip_snoc, Hb. simpl. now rewrite Ha.
Qed.

Lemma startswith_app (p s : pystr) : startswith (p ++ s) p = true.
Proof. induction p as [|x p IH]; simpl; [reflexivity|]. now rewrite N.eqb_refl. Qed.

Lemma startswith_spec (s p : pystr) :
  startswith s p = true <-> exists r, s = p ++ r.
Proof.
  split.
  - revert s. induction p as [|x p IH]; intros s H; simpl in *.
    + now exists s.
    + destruct s as [|y s]; [discriminate|].
      apply andb_true_iff in H as [H1 H2]. apply N.eqb_eq in H1. subst y.
      destruct (IH _ H2) as [r ->]. now exists r.
  - intros [r ->]. apply startswith_app.
Qed.

Lemma endswith_app (s p : pystr) : endswith (s ++ p) p = true.
Proof. unfold endswith. rewrite rev_app_distr. apply startswith_app. Qed.

Lemma partition_head (sep r : pystr) :
  partition sep (sep ++ r) = Some ([], r).
Proof.
  destruct sep as [|x sep]; simpl.
  - destruct r; reflexivity.
  - rewrite N.eqb_refl, startswith_app. simpl.
    f_equal. f_equal. induction sep; simpl; auto.
Qed.

Lemma partition_char (c : N) (a r : pystr) :
  ~ In c a -> partition [c] (a ++ c :: r) = Some (a, r).
Proof.
  induction a as [|x a IH]; intros H.
  - apply (partition_head [c] r).
  - simpl. destruct (N.eqb_spec c x) as [->|Hne].
    + exfalso. apply H. now left.
    + simpl. change (match partition [c] (a ++ c :: r) with
                     | Some (a0, b) => Some (x :: a0, b) | None => None end = Some (x :: a, r)).
      rewrite IH; [reflexivity|]. intros Hin. apply H. now right.
Qed.

Lemma partition_char_none (c : N) (s : pystr) : ~ In c s -> partition [c] s = None.
Proof.
  induction s as [|x s IH]; intros H; [reflexivity|].
  simpl. destruct (N.eqb_spec c x) as [->|Hne].
  - exfalso. apply H. now left.
  - simpl. change (match partition [c] s with
                   | Some (a0, b) => Some (x :: a0, b) | None => None end = None).
    rewrite IH; [reflexivity|]. intros Hin. apply H. now right.
Qed.

(** [rsplit] at a separator that ends the string cuts exactly it. *)
Lemma rsplit1_suffix (sep s : pystr) :
  rsplit1 sep (s ++ sep) = [s; []].
Proof.
  unfold rsplit1. rewrite rev_app_distr, partition_head. simpl.
  now rewrite rev_involutive.
Qed.

Lemma contains_startswith (s sub : pystr) :
  contains s sub = false -> startswith s sub = false.
Proof. destruct s; simpl; intros H; apply orb_false_iff in H; tauto. Qed.

Lemma contains_app_false (a b sub : pystr) :
  contains (a ++ b) sub = false -> contains b sub = false.
Proof.
  induction a as [|x a IH]; [auto|].
  simpl. intros H. apply orb_false_iff in H as [_ H]. auto.
Qed.

Lemma startswith_rev_contains (s sub : pystr) :
  startswith (rev s) (rev sub) = true -> contains s sub = true.
Proof.
  intros H. apply startswith_spec in H as [r Hr].
  assert (E : s = rev r ++ sub).
  { rewrite <- (rev_involutive s), Hr, rev_app_distr. now rewrite rev_involutive. }
  rewrite E. clear. induction (rev r) as [|x l IH]; simpl.
  - pose proof (startswith_app sub []) as H. rewrite app_nil_r in H.
    destruct sub; simpl in *; [reflexivity|]. now rewrite H.
  - rewrite IH. apply orb_true_r.
Qed.

Lemma contains_endswith (s sub : pystr) :
  contains s sub = false -> endswith s sub = false.
Proof.
  intros H. unfold endswith. destruct (startswith (rev s) (rev sub)) eqn:E; [|reflexivity].
  apply startswith_rev_contains in E. congruence.
Qed.

Lemma contains_prefix_false (a b sub : pystr) :
  contains (a ++ b) sub = false -> contains a sub = false.
Proof.
  induction a as [|x a IH]; simpl; intros H.
  - destruct sub; [destruct b; discriminate|reflexivity].
  - apply orb_false_iff in H as [H1 H2]. rewrite (IH H2), orb_false_r.
    destruct (startswith (x :: a) sub) eqn:E; [|reflexivity].
    apply startswith_spec in E as [r Hr].
    assert (E' : startswith (x :: a ++ b) sub = true).
    { apply startswith_spec. exists (r ++ b).
      change (x :: a ++ b) with ((x :: a) ++ b). rewrite Hr. now rewrite app_assoc. }
    congruence.
Qed.

Lemma lstrip_suffix (s : pystr) : exists w, s = w ++ lstrip s.
Proof.
  induction s as [|c s [w IH]]; simpl.
  - now exists [].
  - destruct (isspace c); [|now exists []].
    exists (c :: w). simpl. now f_equal.
Qed.

Lemma rstrip_prefix (s : pystr) : exists w, s = rstrip s ++ w.
Proof.
  unfold rstrip. destruct (lstrip_suffix (rev s)) as [w Hw].
  exists (rev w). rewrite <- rev_app_distr, <- Hw. now rewrite rev_involutive.
Qed.

Lemma contains_strip_false (s sub : pystr) :
  contains s sub = false -> contains (strip s) sub = false.
Proof.
  intros H. unfold strip.
  destruct (rstrip_prefix s) as [w Hw]. rewrite Hw in H.
  apply contains_prefix_false in H.
  destruct (lstrip_suffix (rstrip s)) as [v Hv]. rewrite Hv in H.
  now apply contains_app_false in H.
Qed.

(** ** The prompt builder *)

(** C7. The user message is a function of the four fields of the request
    alone (two requests with equal fields give the same text); it is the
    log block, holding the whole [log_text] verbatim, followed by one line
    for each optional field that is not empty and by the closing
    instruction, so that an empty optional field contributes no line. *)
Theorem build_user_prompt_rendered (req : AnalyzeRequest) :
  build_user_prompt req = rendered_message req
  /\ (forall req' : AnalyzeRequest,
        log_text req' = log_text req -> kernel_version req' = kernel_version req ->
        distro req' = distro req -> additional_context req' = additional_context req ->
        build_user_prompt req' = build_user_prompt req)
  /\ (exists tail,
        build_user_prompt req
        = lit "<kernel_log>" ++ [10%N] ++ log_text req ++ [10%N] ++ lit "</kernel_log>" ++ tail)
  /\ (kernel_version req = [] -> distro req = [] -> additional_context req = [] ->
      build_user_prompt req = log_block (log_text req) ++ [10; 10]%N ++ closing_instruction).
Proof.
  assert (E : build_user_prompt req = rendered_message req).
  { destruct req as [l k d a]. destruct k, d, a; reflexivity. }
  repeat split.
  - exact E.
  - intros [l' k' d' a'] H1 H2 H3 H4. simpl in *. subst. now destruct req.
  - rewrite E. unfold rendered_message, log_block.
    eexists. repeat rewrite <- app_assoc. reflexivity.
  - intros H1 H2 H3. rewrite E. unfold rendered_message. now rewrite H1, H2, H3.
Qed.

(** ** Fence stripping *)


(** The stripped text is its own [strip]. *)
Lemma strip_fence_trimmed (text out : pystr) :
  strip_fence text = Ok out -> strip out = out.
Proof.
  unfold strip_fence.
  destruct (if startswith (strip text) fence then _ else _) as [r1|]; [|discriminate].
  simpl. destruct (if endswith r1 fence then _ else _) as [r2|]; [|discriminate].
  simpl. intros H. injection H as <-. apply strip_idem.
Qed.

(** Text that is trimmed and neither begins nor ends with a fence marker
    goes through unchanged. *)
Lemma strip_fence_clean (raw : pystr) :
  strip raw = raw -> startswith raw fence = false -> endswith raw fence = false ->
  strip_fence raw = Ok raw.
Proof.
  intros Hs Hb He. unfold strip_fence. rewrite Hs, Hb. simpl. rewrite He. simpl.
  now rewrite Hs.
Qed.

Lemma strip_fence_fenced (tag inner : pystr) :
  ~ In 10%N tag -> strip_fence (fenced tag inner) = Ok (strip inner).
Proof.
  intros Htag. unfold strip_fence.
  assert (Hfix : strip (fenced tag inner) = fenced tag inner).
  { unfold fenced, fence.
    change (lit "```") with ([96; 96; 96]%N).
    change ([96; 96; 96]%N ++ tag ++ [10%N] ++ inner ++ [10%N] ++ [96; 96; 96]%N)
      with (96%N :: ([96; 96]%N ++ tag ++ [10%N] ++ inner ++ [10%N] ++ [96; 96; 96]%N)).
    replace ([96; 96]%N ++ tag ++ [10%N] ++ inner ++ [10%N] ++ [96; 96; 96]%N)
      with (([96; 96]%N ++ tag ++ [10%N] ++ inner ++ [10%N] ++ [96; 96]%N) ++ [96%N]).
    - apply strip_fixed; reflexivity.
    - repeat rewrite <- app_assoc. reflexivity. }
  rewrite Hfix.
  assert (Hstart : startswith (fenced tag inner) fence = true) by apply startswith_app.
  rewrite Hstart.
  assert (Hsplit : split1 [10%N] (fenced tag inner) = [fence ++ tag; inner ++ [10%N] ++ fence]).
  { unfold split1, fenced. rewrite app_assoc.
    change ([10%N] ++ inner ++ [10%N] ++ fence) with (10%N :: inner ++ [10%N] ++ fence).
    rewrite partition_char; [reflexivity|].
    intros Hin. apply in_app_or in Hin as [Hin|Hin]; [|contradiction].
    simpl in Hin. intuition discriminate. }
  rewrite Hsplit. unfold index. cbn [nth_error bind].
  rewrite (app_assoc inner [10%N] fence), endswith_app, rsplit1_suffix.
  cbn [nth_error bind]. f_equal. now apply strip_app_space.
Qed.

(** C4 as stated fails: on a reply with two opening fence lines the second
    application strips a second line. *)
Lemma strip_fence_not_idempotent :
  exists text out,
    text = lit "```" ++ [10%N] ++ lit "```" ++ [10%N] ++ lit "x"
    /\ strip_fence text = Ok out
    /\ strip_fence out = Ok (lit "x")
    /\ strip_fence out <> Ok out.
Proof.
  eexists. eexists. split; [reflexivity|]. split; [reflexivity|].
  split; [reflexivity|]. discriminate.
Qed.

(** C4, amended. The stripping step is idempotent on every reply whose
    stripped text neither begins nor ends with a fence marker, which covers
    a reply without fence markers and a reply wrapped in one fence pair
    around content without fence markers; a trimmed reply without fence
    markers is returned unchanged; of a reply wrapped in one fence pair,
    with an optional language tag on the first line, the wrapper is removed
    and the inner content is returned trimmed of surrounding whitespace
    (verbatim when it is already trimmed). *)
Theorem strip_fence_idempotent_conservative (text out raw tag inner : pystr) :
  strip_fence text = Ok out ->
  startswith out fence = false -> endswith out fence = false ->
  strip raw = raw -> contains raw fence = false ->
  ~ In 10%N tag -> contains inner fence = false ->
  strip_fence out = Ok out
  /\ strip_fence raw = Ok raw
  /\ strip_fence (fenced tag inner) = Ok (strip inner)
  /\ (strip inner = inner -> strip_fence (fenced tag inner) = Ok inner)
  /\ strip_fence (strip inner) = Ok (strip inner).
Proof.
  intros Hout Hb He Hraw Hnf Htag Hinner.
  split; [|split; [|split; [|split]]].
  - apply strip_fence_clean; auto. eapply strip_fence_trimmed; eauto.
  - apply strip_fence_clean; auto using contains_startswith, contains_endswith.
  - now apply strip_fence_fenced.
  - intros E. rewrite strip_fence_fenced by assumption. now rewrite E.
  - apply contains_strip_false in Hinner.
    apply strip_fence_clean; auto using strip_idem, contains_startswith, contains_endswith.
Qed.

Lemma strip_fence_idempotent_conservative_witness :
  strip_fence (lit "{}") = Ok (lit "{}")
  /\ strip_fence (lit "[1]") = Ok (lit "[1]")
  /\ strip_fence (fenced (lit "json") (lit "{}")) = Ok (strip (lit "{}"))
  /\ (strip (lit "{}") = lit "{}" -> strip_fence (fenced (lit "json") (lit "{}")) = Ok (lit "{}"))
  /\ strip_fence (strip (lit "{}")) = Ok (strip (lit "{}")).
Proof.
  apply (@strip_fence_idempotent_conservative
           (fenced (lit "json") (lit "{}")) (lit "{}") (lit "[1]") (lit "json") (lit "{}")).
  - reflexivity.
  - reflexivity.
  - reflexivity.
  - reflexivity.
  - reflexivity.
  - simpl. intros H. repeat destruct H as [H|H]; try discriminate H. exact H.
  - reflexivity.
Defined.

(** A fence line without a newline: [split] returns one piece and the
    index [1] is out of range. *)
Lemma strip_fence_index_error (text : pystr) :
  startswith (strip text) fence = true -> ~ In 10%N (strip text) ->
  strip_fence text = Raise (IndexError (lit "list index out of range")).
Proof.
  intros Hs Hn. unfold strip_fence. rewrite Hs.
  unfold split1. now rewrite partition_char_none.
Qed.

(** ** The scanner *)

Section Scanner.

Import Json.
Local Open Scope N_scope.

Variable maxd : nat.

Lemma scanstring_loop_step (begin : nat) (s acc : pystr) :
  scanstring_loop begin s acc =
  match scan_chunk s with
  | Closing r => Scanned (rev acc) r
  | Char c r => scanstring_loop begin r (c :: acc)
  | Bad m n => ErrMsg m n
  | Unterminated => ErrMsg "Unterminated string starting at" begin
  end.
Proof.
  destruct s as [|c s1]; [reflexivity|].
  cbn [scanstring_loop scan_chunk].
  destruct (c =? 34); [reflexivity|].
  destruct (c =? 92); [|destruct (c <=? 31); reflexivity].
  destruct s1 as [|e s2]; [reflexivity|].
  destruct (e =? 117); [|destruct (unescape e); reflexivity].
  destruct s2 as [|h1 [|h2 [|h3 [|h4 [|y s3]]]]]; try reflexivity.
  cbv beta iota.
  destruct (hex4 h1 h2 h3 h4) as [c1|]; [|reflexivity].
  destruct (is_high_surrogate c1); [|reflexivity].
  destruct s3 as [|u [|g1 [|g2 [|g3 [|g4 [|z s4]]]]]]; try reflexivity.
  cbv beta iota.
  destruct ((y =? 92) && (u =? 117)); [|reflexivity].
  destruct (hex4 g1 g2 g3 g4) as [c2|]; [|reflexivity].
  destruct (is_low_surrogate c2); reflexivity.
Qed.

Lemma trailer_range (c : N) :
  trailer c = true ->
  (9 <= c <= 13) \/ (28 <= c <= 32) \/ c = 96 \/ 133 <= c.
Proof.
  unfold trailer, isspace. intros H.
  repeat match type of H with
         | (_ || _) = true => apply orb_true_iff in H; destruct H as [H|H]
         | (_ && _) = true => apply andb_true_iff in H; destruct H as [H ?]
         end;
  repeat match goal with
         | H : (_ <=? _) = true |- _ => apply N.leb_le in H
         | H : (_ =? _) = true |- _ => apply N.eqb_eq in H
         end; lia.
Qed.

Ltac trailer_neq :=
  match goal with
  | H : trailer ?c = true |- _ =>
      let R := fresh "R" in
      pose proof (trailer_range c H) as R;
      repeat match goal with
             | |- negb _ = true => apply negb_true_iff
             | |- _ && _ = false => apply andb_false_iff
             | |- _ || _ = false => apply orb_false_iff; split
             | |- (_ =? _) = false => apply N.eqb_neq
             | |- (_ <=? _) = false => apply N.leb_gt
             end; try lia
  end.

Lemma trailer_not_digit c : trailer c = true -> is_digit c = false.
Proof.
  intros H. pose proof (trailer_range c H). unfold is_digit.
  destruct (48 <=? c) eqn:E1; [|reflexivity]. destruct (c <=? 57) eqn:E2; [|reflexivity].
  apply N.leb_le in E1, E2. lia.
Qed.

Lemma trailer_eqb c k :
  trailer c = true -> (33 <= k <= 95 \/ 97 <= k <= 132) -> (c =? k) = false /\ (k =? c) = false.
Proof.
  intros H Hk. pose proof (trailer_range c H). split; apply N.eqb_neq; lia.
Qed.

Lemma trailer_hexval c : trailer c = true -> hexval c = None.
Proof.
  intros H. pose proof (trailer_range c H). unfold hexval.
  repeat match goal with
         | |- context [(?a <=? ?b) && (?x <=? ?y)] =>
             let E1 := fresh in let E2 := fresh in
             destruct (a <=? b) eqn:E1; destruct (x <=? y) eqn:E2;
             try apply N.leb_le in E1; try apply N.leb_le in E2; simpl; try lia
         end; reflexivity.
Qed.

Lemma trailer_unescape c : trailer c = true -> unescape c = None.
Proof.
  intros H. unfold unescape.
  repeat match goal with
         | |- context [c =? ?k] =>
             rewrite (proj1 (trailer_eqb c k H ltac:(lia)))
         end.
  reflexivity.
Qed.


Lemma chunk_lt (s : pystr) :
  match scan_chunk s with
  | Closing r | Char _ r => (List.length r < List.length s)%nat
  | _ => True
  end.
Proof.
  destruct s as [|c s1]; [exact I|].
  cbn [scan_chunk].
  destruct (c =? 34); [simpl; lia|].
  destruct (c =? 92); [|destruct (c <=? 31); simpl; [exact I|lia]].
  destruct s1 as [|e s2]; [exact I|].
  destruct (e =? 117); [|destruct (unescape e); simpl; [lia|exact I]].
  destruct s2 as [|h1 [|h2 [|h3 [|h4 [|y s3]]]]]; try exact I.
  destruct (hex4 h1 h2 h3 h4) as [c1|]; [|exact I].
  destruct (is_high_surrogate c1); [|simpl; lia].
  destruct s3 as [|u [|g1 [|g2 [|g3 [|g4 [|z s4]]]]]]; try (simpl; lia).
  destruct ((y =? 92) && (u =? 117)); [|simpl; lia].
  destruct (hex4 g1 g2 g3 g4) as [c2|]; [|exact I].
  destruct (is_low_surrogate c2); simpl; lia.
Qed.

Ltac chunk_done :=
  cbv beta iota;
  first [ exact I
        | left; eexists; split; [|reflexivity]; reflexivity
        | right; left; reflexivity
        | right; right; reflexivity
        | eexists; split; [|reflexivity]; reflexivity ].

Lemma chunk_snoc (c : N) (s0 : pystr) :
  trailer c = true ->
  match scan_chunk (s0 ++ [c]) with
  | Closing r => exists r0, r = r0 ++ [c] /\ scan_chunk s0 = Closing r0
  | Char ch r => (exists r0, r = r0 ++ [c] /\ scan_chunk s0 = Char ch r0) \/ r = [c] \/ r = []
  | _ => True
  end.
Proof.
  intros Hc.
  destruct (trailer_eqb c 34 Hc ltac:(lia)) as [E34 _].
  destruct (trailer_eqb c 92 Hc ltac:(lia)) as [E92 _].
  destruct (trailer_eqb c 117 Hc ltac:(lia)) as [E117 _].
  destruct s0 as [|x s1]; cbn [app scan_chunk].
  { rewrite E34, E92. destruct (c <=? 31); chunk_done. }
  destruct (x =? 34); [chunk_done|].
  destruct (x =? 92); [|destruct (x <=? 31); chunk_done].
  destruct s1 as [|e s2]; cbn [app].
  { rewrite E117, (trailer_unescape c Hc). chunk_done. }
  destruct (e =? 117); [|destruct (unescape e); chunk_done].
  destruct s2 as [|h1 [|h2 [|h3 [|h4 [|y s3]]]]]; cbn [app]; try chunk_done.
  { destruct (hex4 h1 h2 h3 h4) as [c1|]; [|chunk_done].
    destruct (is_high_surrogate c1); chunk_done. }
  destruct (hex4 h1 h2 h3 h4) as [c1|]; [|chunk_done].
  destruct (is_high_surrogate c1); [|chunk_done].
  destruct s3 as [|u [|g1 [|g2 [|g3 [|g4 [|z s4]]]]]]; cbn [app]; try chunk_done.
  { destruct ((y =? 92) && (u =? 117)); [|chunk_done].
    destruct (hex4 g1 g2 g3 g4) as [c2|]; [|chunk_done].
    destruct (is_low_surrogate c2); chunk_done. }
  destruct ((y =? 92) && (u =? 117)); [|chunk_done].
  destruct (hex4 g1 g2 g3 g4) as [c2|]; [|chunk_done].
  destruct (is_low_surrogate c2); chunk_done.
Qed.

Lemma scanstring_loop_trailer (c : N) (b : nat) (acc : pystr) :
  trailer c = true -> forall v r, scanstring_loop b [c] acc <> Scanned v r.
Proof.
  intros Hc v r.
  destruct (trailer_eqb c 34 Hc ltac:(lia)) as [E34 _].
  destruct (trailer_eqb c 92 Hc ltac:(lia)) as [E92 _].
  cbn [scanstring_loop]. rewrite E34, E92. destruct (c <=? 31); discriminate.
Qed.

Lemma scanstring_loop_snoc (c : N) :
  trailer c = true ->
  forall n s0, (List.length s0 <= n)%nat ->
  forall b b' acc v rest,
    scanstring_loop b (s0 ++ [c]) acc = Scanned v rest ->
    exists rest0, rest = rest0 ++ [c] /\ scanstring_loop b' s0 acc = Scanned v rest0.
Proof.
  intros Hc. induction n as [|n IH]; intros s0 Hlen b b' acc v rest H.
  - destruct s0; [|simpl in Hlen; lia].
    exfalso. exact (scanstring_loop_trailer c b acc Hc v rest H).
  - rewrite scanstring_loop_step in H. rewrite (scanstring_loop_step b' s0).
    pose proof (chunk_snoc c s0 Hc) as Hs. pose proof (chunk_lt s0) as Hl.
    destruct (scan_chunk (s0 ++ [c])) as [r|ch r|m k|]; try discriminate H.
    + destruct Hs as (r0 & -> & ->). injection H as <- <-. now exists r0.
    + destruct Hs as [(r0 & -> & E)|[->| ->]].
      * rewrite E in *. apply (IH r0 ltac:(lia) b b'). exact H.
      * exfalso. exact (scanstring_loop_trailer c b (ch :: acc) Hc v rest H).
      * discriminate H.
Qed.

Lemma scanstring_snoc (c : N) (s0 : pystr) (v rest : pystr) :
  trailer c = true ->
  scanstring (s0 ++ [c]) = Scanned v rest ->
  exists rest0, rest = rest0 ++ [c] /\ scanstring s0 = Scanned v rest0.
Proof.
  intros Hc H. unfold scanstring in *.
  exact (scanstring_loop_snoc c Hc (List.length s0) s0 (le_n _) _ _ [] v rest H).
Qed.

Lemma scanstring_loop_lt :
  forall n s, (List.length s <= n)%nat ->
  forall b acc v r, scanstring_loop b s acc = Scanned v r -> (List.length r < List.length s)%nat.
Proof.
  induction n as [|n IH]; intros s Hlen b acc v r H.
  - destruct s; [discriminate H|simpl in Hlen; lia].
  - rewrite scanstring_loop_step in H. pose proof (chunk_lt s) as Hl.
    destruct (scan_chunk s) as [r'|ch r'|m k|]; try discriminate H.
    + injection H as <- <-. exact Hl.
    + apply IH in H; lia.
Qed.

Lemma scanstring_lt (s v r : pystr) :
  scanstring s = Scanned v r -> (List.length r < List.length s)%nat.
Proof. apply (scanstring_loop_lt (List.length s) s (le_n _)). Qed.


Lemma scanstring_loop_has_fuel :
  forall n s, (List.length s <= n)%nat ->
  forall b acc, scanstring_loop b s acc <> OutOfFuel.
Proof.
  induction n as [|n IH]; intros s Hlen b acc.
  - destruct s; [discriminate|simpl in Hlen; lia].
  - rewrite scanstring_loop_step. pose proof (chunk_lt s) as Hl.
    destruct (scan_chunk s) as [r'|ch r'|m k|]; try discriminate.
    apply IH. lia.
Qed.

Lemma scan_string_value_has_fuel (s : pystr) : scan_string_value s <> OutOfFuel.
Proof.
  unfold scan_string_value.
  pose proof (scanstring_loop_has_fuel (List.length s) s (le_n _) (S (List.length s)) []) as H.
  fold (scanstring s) in H. destruct (scanstring s); congruence.
Qed.

(** *** Numbers and constants *)

Lemma skip_ws_le (s : pystr) : (List.length (skip_ws s) <= List.length s)%nat.
Proof.
  induction s as [|c s IH]; simpl; [lia|]. destruct (is_ws c); simpl; lia.
Qed.

Lemma skip_ws_snoc (s : pystr) (c : N) :
  skip_ws (s ++ [c]) =
  match skip_ws s with
  | [] => if is_ws c then [] else [c]
  | r => r ++ [c]
  end.
Proof.
  induction s as [|x s IH]; simpl.
  - destruct (is_ws c); reflexivity.
  - destruct (is_ws x); [exact IH | reflexivity].
Qed.

Lemma digits_le (s : pystr) : (List.length (snd (digits s)) <= List.length s)%nat.
Proof.
  induction s as [|c s IH]; simpl; [lia|].
  destruct (is_digit c); [|simpl; lia].
  destruct (digits s); simpl in *; lia.
Qed.

Lemma digits_snoc (s : pystr) (c : N) :
  is_digit c = false ->
  digits (s ++ [c]) = (fst (digits s), snd (digits s) ++ [c]).
Proof.
  intros Hc. induction s as [|x s IH]; simpl.
  - now rewrite Hc.
  - destruct (is_digit x); [|reflexivity].
    rewrite IH. destruct (digits s); reflexivity.
Qed.

Lemma int_part_lt (s ip r : pystr) :
  int_part s = Some (ip, r) -> (List.length r < List.length s)%nat.
Proof.
  destruct s as [|c s]; [discriminate|]. unfold int_part.
  destruct ((49 <=? c) && (c <=? 57)).
  - pose proof (digits_le s) as Hd. destruct (digits s). intros H. injection H as <- <-.
    simpl in *. lia.
  - destruct (c =? 48); [|discriminate]. intros H. injection H as <- <-. simpl. lia.
Qed.

Lemma int_part_snoc (s : pystr) (c : N) :
  trailer c = true ->
  int_part (s ++ [c]) =
  match int_part s with
  | Some (ip, r) => Some (ip, r ++ [c])
  | None => None
  end.
Proof.
  intros Hc. pose proof (trailer_range c Hc) as R.
  destruct s as [|x s]; simpl.
  - replace ((49 <=? c) && (c <=? 57)) with false.
    + now rewrite (proj1 (trailer_eqb c 48 Hc ltac:(lia))).
    + symmetry. apply andb_false_iff.
      destruct (49 <=? c) eqn:E1; [|now left]. right.
      apply N.leb_le in E1. apply N.leb_gt. lia.
  - destruct ((49 <=? x) && (x <=? 57)).
    + rewrite (digits_snoc s c (trailer_not_digit c Hc)). destruct (digits s); reflexivity.
    + destruct (x =? 48); reflexivity.
Qed.

Lemma frac_part_le (s : pystr) : (List.length (snd (frac_part s)) <= List.length s)%nat.
Proof.
  destruct s as [|p [|d r]]; simpl; try lia.
  destruct ((p =? 46) && is_digit d); [|simpl; lia].
  pose proof (digits_le r). destruct (digits r); simpl in *; lia.
Qed.

Lemma frac_part_snoc (s : pystr) (c : N) :
  trailer c = true ->
  frac_part (s ++ [c]) = (fst (frac_part s), snd (frac_part s) ++ [c]).
Proof.
  intros Hc. destruct s as [|p [|d r]]; simpl.
  - reflexivity.
  - rewrite (trailer_not_digit c Hc), andb_false_r. reflexivity.
  - destruct ((p =? 46) && is_digit d); [|reflexivity].
    rewrite (digits_snoc r c (trailer_not_digit c Hc)). destruct (digits r); reflexivity.
Qed.

Lemma exp_part_le (s : pystr) : (List.length (snd (exp_part s)) <= List.length s)%nat.
Proof.
  destruct s as [|e r]; simpl; [lia|].
  destruct ((e =? 101) || (e =? 69)); [|simpl; lia].
  destruct r as [|sg r'].
  - simpl. lia.
  - destruct ((sg =? 45) || (sg =? 43)).
    + pose proof (digits_le r'). destruct (digits r') as [[|d ds] r'']; simpl in *; lia.
    + pose proof (digits_le (sg :: r')). destruct (digits (sg :: r')) as [[|d ds] r''];
        simpl in *; lia.
Qed.

Lemma exp_part_snoc (s : pystr) (c : N) :
  trailer c = true ->
  exp_part (s ++ [c]) = (fst (exp_part s), snd (exp_part s) ++ [c]).
Proof.
  intros Hc. pose proof (trailer_not_digit c Hc) as Hd.
  destruct s as [|e r]; cbn [app exp_part].
  - rewrite (proj1 (trailer_eqb c 101 Hc ltac:(lia))), (proj1 (trailer_eqb c 69 Hc ltac:(lia))).
    reflexivity.
  - destruct ((e =? 101) || (e =? 69)); [|reflexivity].
    destruct r as [|sg r']; cbn [app].
    + rewrite (proj1 (trailer_eqb c 45 Hc ltac:(lia))), (proj1 (trailer_eqb c 43 Hc ltac:(lia))).
      cbn. rewrite Hd. reflexivity.
    + destruct ((sg =? 45) || (sg =? 43)).
      * rewrite (digits_snoc r' c Hd). destruct (digits r') as [[|d ds] r'']; reflexivity.
      * change (sg :: r' ++ [c]) with ((sg :: r') ++ [c]).
        rewrite (digits_snoc (sg :: r') c Hd).
        destruct (digits (sg :: r')) as [[|d ds] r'']; reflexivity.
Qed.

Lemma minus_sign_le (s : pystr) : (List.length (snd (minus_sign s)) <= List.length s)%nat.
Proof. destruct s as [|c s']; simpl; [lia|]. destruct (c =? 45); simpl; lia. Qed.

Lemma minus_sign_snoc (s : pystr) (c : N) :
  trailer c = true ->
  minus_sign (s ++ [c]) = (fst (minus_sign s), snd (minus_sign s) ++ [c]).
Proof.
  intros Hc. destruct s as [|x s']; simpl.
  - now rewrite (proj1 (trailer_eqb c 45 Hc ltac:(lia))).
  - destruct (x =? 45); reflexivity.
Qed.

Lemma match_number_lt (s : pystr) (v : json) (r : pystr) :
  match_number maxd s = Scanned v r -> (List.length r < List.length s)%nat.
Proof.
  unfold match_number.
  pose proof (minus_sign_le s) as Hp. destruct (minus_sign s) as [neg s1]. simpl in Hp.
  destruct (int_part s1) as [[ip r1]|] eqn:E; [|discriminate].
  apply int_part_lt in E.
  pose proof (frac_part_le r1) as Hf. destruct (frac_part r1) as [frac r2].
  pose proof (exp_part_le r2) as He. destruct (exp_part r2) as [exp r3].
  simpl in *. destruct (frac ++ exp); [destruct (exceeds_digit_limit _ _); [discriminate|]|];
    intros H; injection H as _ <-; lia.
Qed.

Lemma match_number_has_fuel (s : pystr) : match_number maxd s <> OutOfFuel.
Proof.
  unfold match_number. destruct (minus_sign s) as [neg s1].
  destruct (int_part s1) as [[ip r1]|]; [|discriminate].
  destruct (frac_part r1) as [frac r2]. destruct (exp_part r2) as [exp r3].
  destruct (frac ++ exp); [destruct (exceeds_digit_limit _ _)|]; discriminate.
Qed.

Lemma match_number_snoc (s0 : pystr) (c : N) (v : json) (rest : pystr) :
  trailer c = true ->
  match_number maxd (s0 ++ [c]) = Scanned v rest ->
  exists rest0, rest = rest0 ++ [c] /\ match_number maxd s0 = Scanned v rest0.
Proof.
  intros Hc. unfold match_number.
  rewrite (minus_sign_snoc s0 c Hc). destruct (minus_sign s0) as [neg s1].
  cbn [fst snd]. rewrite (int_part_snoc s1 c Hc).
  destruct (int_part s1) as [[ip r1]|]; [|discriminate].
  rewrite (frac_part_snoc r1 c Hc). destruct (frac_part r1) as [frac r2]. cbn [fst snd].
  rewrite (exp_part_snoc r2 c Hc). destruct (exp_part r2) as [exp r3]. cbn [fst snd].
  destruct (frac ++ exp); [destruct (exceeds_digit_limit _ _); [discriminate|]|];
    intros H; injection H as <- <-; now exists r3.
Qed.

Lemma Scanned_inj {A} (a a' : A) (r r' : pystr) :
  Scanned a r = Scanned a' r' -> a = a' /\ r = r'.
Proof. intros H. injection H as -> ->. split; reflexivity. Qed.

Lemma startswith_snoc (p s0 : pystr) (c : N) :
  ~ In c p -> startswith (s0 ++ [c]) p = startswith s0 p.
Proof.
  revert s0. induction p as [|x p IH]; intros s0 H; [reflexivity|].
  destruct s0 as [|y s0]; simpl.
  - destruct (N.eqb_spec x c) as [->|_]; [|reflexivity].
    exfalso. apply H. now left.
  - rewrite IH; [reflexivity|]. intros Hin. apply H. now right.
Qed.

Lemma startswith_length (s p : pystr) :
  startswith s p = true -> (List.length p <= List.length s)%nat.
Proof.
  intros H. apply startswith_spec in H as [r ->]. rewrite length_app. lia.
Qed.

Lemma skipn_snoc (k : nat) (s : pystr) (c : N) :
  (k <= List.length s)%nat -> skipn k (s ++ [c]) = skipn k s ++ [c].
Proof.
  intros H. rewrite skipn_app. replace (k - List.length s)%nat with 0%nat by lia.
  reflexivity.
Qed.

Lemma trailer_not_in (c : N) (name : string) :
  trailer c = true ->
  forallb (fun k => ((33 <=? k) && (k <=? 95)) || ((97 <=? k) && (k <=? 132))) (lit name) = true ->
  ~ In c (lit name).
Proof.
  intros Hc H Hin. rewrite forallb_forall in H. specialize (H c Hin).
  pose proof (trailer_range c Hc) as R.
  apply orb_true_iff in H as [H|H]; apply andb_true_iff in H as [H1 H2];
    apply N.leb_le in H1, H2; lia.
Qed.

Lemma scan_atom_lt (s : pystr) (v : json) (r : pystr) :
  scan_atom maxd s = Scanned v r -> (List.length r < List.length s)%nat.
Proof.
  unfold scan_atom.
  repeat match goal with
         | |- context [if startswith s ?p then _ else _] =>
             let E := fresh "E" in
             destruct (startswith s p) eqn:E;
             [ apply startswith_length in E; intros H; apply Scanned_inj in H as [_ <-];
               rewrite length_skipn; cbn in E; lia | clear E ]
         end.
  apply match_number_lt.
Qed.

Lemma scan_atom_has_fuel (s : pystr) : scan_atom maxd s <> OutOfFuel.
Proof.
  unfold scan_atom.
  repeat match goal with
         | |- context [if ?b then _ else _] => destruct b; [discriminate|]
         end.
  apply match_number_has_fuel.
Qed.

Lemma scan_atom_snoc (s0 : pystr) (c : N) (v : json) (rest : pystr) :
  trailer c = true ->
  scan_atom maxd (s0 ++ [c]) = Scanned v rest ->
  exists rest0, rest = rest0 ++ [c] /\ scan_atom maxd s0 = Scanned v rest0.
Proof.
  intros Hc. unfold scan_atom.
  repeat match goal with
         | |- context [startswith (s0 ++ [c]) (lit ?n)] =>
             rewrite (startswith_snoc (lit n) s0 c (trailer_not_in c n Hc eq_refl))
         end.
  repeat match goal with
         | |- context [if startswith s0 ?p then _ else _] =>
             let E := fresh "E" in
             destruct (startswith s0 p) eqn:E;
             [ apply startswith_length in E; intros H; apply Scanned_inj in H as [<- <-];
               eexists; split; [apply skipn_snoc; exact E | reflexivity] | clear E ]
         end.
  apply match_number_snoc. exact Hc.
Qed.

(** *** Values *)

Lemma startswith_single (s : pystr) (k : N) :
  startswith s [k] = true -> s = k :: skipn 1 s.
Proof.
  destruct s as [|x s]; simpl; [discriminate|].
  rewrite andb_true_r. intros H. apply N.eqb_eq in H. now subst.
Qed.

Lemma scan_string_value_lt (s : pystr) (v : json) (r : pystr) :
  scan_string_value s = Scanned v r -> (List.length r < List.length s)%nat.
Proof.
  unfold scan_string_value. destruct (scanstring s) as [str r'| | | |] eqn:E; try discriminate.
  intros H. apply Scanned_inj in H as [_ <-]. now apply scanstring_lt in E.
Qed.

Lemma skipn1_lt (t : pystr) (k : N) :
  startswith t [k] = true -> (List.length (skipn 1 t) < List.length t)%nat.
Proof. intros H. apply startswith_single in H. rewrite H at 2. simpl. lia. Qed.

Lemma shorter_le (s s' : pystr) (res : scan json) :
  (List.length s <= List.length s')%nat -> shorter s res -> shorter s' res.
Proof. destruct res; simpl; auto. lia. Qed.

Lemma scan_shorter (fuel : nat) :
  (forall d s, shorter s (scan_once maxd fuel d s))
  /\ (forall d s values, shorter s (array_loop maxd fuel d s values))
  /\ (forall d s pairs, shorter s (object_loop maxd fuel d s pairs)).
Proof.
  induction fuel as [|f (IHs & IHa & IHo)]; [repeat split; intros; exact I|].
  repeat split.
  - intros d s. cbn [scan_once]. destruct s as [|c s1]; [exact I|].
    destruct (c =? 34).
    { pose proof (scan_string_value_lt s1) as H. unfold shorter.
      destruct (scan_string_value s1); auto. specialize (H _ _ eq_refl). cbn [List.length]. lia. }
    pose proof (skip_ws_le s1) as Hw.
    destruct (c =? 123).
    { destruct d as [|d']; [exact I|].
      destruct (startswith (skip_ws s1) [125]) eqn:E.
      - apply skipn1_lt in E. unfold shorter. cbn [List.length]. lia.
      - apply (shorter_le (skip_ws s1)); [cbn [List.length]; lia | apply IHo]. }
    destruct (c =? 91).
    { destruct d as [|d']; [exact I|].
      destruct (startswith (skip_ws s1) [93]) eqn:E.
      - apply skipn1_lt in E. unfold shorter. cbn [List.length]. lia.
      - apply (shorter_le (skip_ws s1)); [cbn [List.length]; lia | apply IHa]. }
    pose proof (scan_atom_lt (c :: s1)) as H. unfold shorter.
    destruct (scan_atom maxd (c :: s1)); auto. exact (H _ _ eq_refl).
  - intros d s values. cbn [array_loop]. specialize (IHs d s). unfold shorter in IHs.
    destruct (scan_once maxd f d s) as [val r| | | |]; try exact I.
    pose proof (skip_ws_le r) as Hw.
    destruct (startswith (skip_ws r) [93]) eqn:E1.
    { apply skipn1_lt in E1. unfold shorter. lia. }
    destruct (startswith (skip_ws r) [44]) eqn:E2; [|exact I].
    apply skipn1_lt in E2. pose proof (skip_ws_le (skipn 1 (skip_ws r))) as Hw'.
    apply (shorter_le (skip_ws (skipn 1 (skip_ws r)))); [lia | apply IHa].
  - intros d s pairs. cbn [object_loop].
    destruct (startswith s [34]) eqn:E; [|exact I].
    apply skipn1_lt in E.
    destruct (scanstring (skipn 1 s)) as [key r| | | |] eqn:Ek; try exact I.
    apply scanstring_lt in Ek.
    pose proof (skip_ws_le r) as Hw.
    destruct (startswith (skip_ws r) [58]) eqn:Ec; [|exact I].
    apply skipn1_lt in Ec.
    pose proof (skip_ws_le (skipn 1 (skip_ws r))) as Hw2.
    specialize (IHs d (skip_ws (skipn 1 (skip_ws r)))). unfold shorter in IHs.
    destruct (scan_once maxd f d (skip_ws (skipn 1 (skip_ws r)))) as [val r2| | | |]; try exact I.
    pose proof (skip_ws_le r2) as Hw3.
    destruct (startswith (skip_ws r2) [125]) eqn:E1.
    { apply skipn1_lt in E1. unfold shorter. lia. }
    destruct (startswith (skip_ws r2) [44]) eqn:E2; [|exact I].
    apply skipn1_lt in E2. pose proof (skip_ws_le (skipn 1 (skip_ws r2))) as Hw4.
    apply (shorter_le (skip_ws (skipn 1 (skip_ws r2)))); [lia | apply IHo].
Qed.

(** With fuel above twice the length of the text the scanner does not run
    out of it. *)
Lemma scan_fuel_enough (fuel : nat) :
  (forall d s, (2 * List.length s < fuel)%nat -> scan_once maxd fuel d s <> OutOfFuel)
  /\ (forall d s values, (2 * List.length s + 1 < fuel)%nat ->
        array_loop maxd fuel d s values <> OutOfFuel)
  /\ (forall d s pairs, (2 * List.length s + 1 < fuel)%nat ->
        object_loop maxd fuel d s pairs <> OutOfFuel).
Proof.
  induction fuel as [|f (IHs & IHa & IHo)]; [repeat split; intros; lia|].
  repeat split.
  - intros d s Hf. cbn [scan_once]. destruct s as [|c s1]; [discriminate|].
    cbn [List.length] in Hf. pose proof (skip_ws_le s1) as Hw.
    destruct (c =? 34); [apply scan_string_value_has_fuel|].
    destruct (c =? 123).
    { destruct d as [|d']; [discriminate|].
      destruct (startswith (skip_ws s1) [125]); [discriminate|]. apply IHo. lia. }
    destruct (c =? 91).
    { destruct d as [|d']; [discriminate|].
      destruct (startswith (skip_ws s1) [93]); [discriminate|]. apply IHa. lia. }
    apply scan_atom_has_fuel.
  - intros d s values Hf. cbn [array_loop].
    pose proof (IHs d s ltac:(lia)) as Hs.
    pose proof (proj1 (scan_shorter f) d s) as Hl. unfold shorter in Hl.
    destruct (scan_once maxd f d s) as [val r| | | |]; try discriminate; [|congruence].
    pose proof (skip_ws_le r) as Hw.
    destruct (startswith (skip_ws r) [93]); [discriminate|].
    destruct (startswith (skip_ws r) [44]) eqn:E2; [|discriminate].
    apply skipn1_lt in E2. pose proof (skip_ws_le (skipn 1 (skip_ws r))) as Hw'.
    apply IHa. lia.
  - intros d s pairs Hf. cbn [object_loop].
    destruct (startswith s [34]) eqn:E; [|discriminate].
    apply skipn1_lt in E.
    pose proof (scanstring_loop_has_fuel (List.length (skipn 1 s)) (skipn 1 s) (le_n _)
                  (S (List.length (skipn 1 s))) []) as Hk.
    fold (scanstring (skipn 1 s)) in Hk.
    destruct (scanstring (skipn 1 s)) as [key r| | | |] eqn:Ek; try discriminate; [|congruence].
    apply scanstring_lt in Ek.
    pose proof (skip_ws_le r) as Hw.
    destruct (startswith (skip_ws r) [58]) eqn:Ec; [|discriminate].
    apply skipn1_lt in Ec.
    pose proof (skip_ws_le (skipn 1 (skip_ws r))) as Hw2.
    pose proof (IHs d (skip_ws (skipn 1 (skip_ws r))) ltac:(lia)) as Hs.
    pose proof (proj1 (scan_shorter f) d (skip_ws (skipn 1 (skip_ws r)))) as Hl.
    unfold shorter in Hl.
    destruct (scan_once maxd f d (skip_ws (skipn 1 (skip_ws r)))) as [val r2| | | |];
      try discriminate; [|congruence].
    pose proof (skip_ws_le r2) as Hw3.
    destruct (startswith (skip_ws r2) [125]); [discriminate|].
    destruct (startswith (skip_ws r2) [44]) eqn:E2; [|discriminate].
    apply skipn1_lt in E2. pose proof (skip_ws_le (skipn 1 (skip_ws r2))) as Hw4.
    apply IHo. lia.
Qed.

Lemma agrees_S (f f' : nat) : agrees maxd f f' -> agrees maxd (S f) (S f').
Proof.
  intros (IHs & IHa & IHo). repeat split.
  - intros d s H. cbn [scan_once] in *. destruct s as [|c s1]; [reflexivity|].
    destruct (c =? 34); [reflexivity|].
    destruct (c =? 123).
    { destruct d as [|d']; [reflexivity|].
      destruct (startswith (skip_ws s1) [125]); [reflexivity|]. now apply IHo. }
    destruct (c =? 91).
    { destruct d as [|d']; [reflexivity|].
      destruct (startswith (skip_ws s1) [93]); [reflexivity|]. now apply IHa. }
    reflexivity.
  - intros d s values H. cbn [array_loop] in *.
    destruct (scan_once maxd f d s) as [val r| | | |] eqn:E; try congruence;
      rewrite (IHs d s) by congruence; rewrite E; try reflexivity.
    destruct (startswith (skip_ws r) [93]); [reflexivity|].
    destruct (startswith (skip_ws r) [44]); [|reflexivity]. now apply IHa.
  - intros d s pairs H. cbn [object_loop] in *.
    destruct (startswith s [34]); [|reflexivity].
    destruct (scanstring (skipn 1 s)) as [key r| | | |]; try reflexivity.
    destruct (startswith (skip_ws r) [58]); [|reflexivity].
    destruct (scan_once maxd f d (skip_ws (skipn 1 (skip_ws r)))) as [val r2| | | |] eqn:E;
      try congruence; rewrite (IHs d _) by congruence; rewrite E; try reflexivity.
    destruct (startswith (skip_ws r2) [125]); [reflexivity|].
    destruct (startswith (skip_ws r2) [44]); [|reflexivity]. now apply IHo.
Qed.

Lemma agrees_le (f f' : nat) : (f <= f')%nat -> agrees maxd f f'.
Proof.
  revert f'. induction f as [|f IH]; intros f' H.
  - repeat split; intros; simpl in *; congruence.
  - destruct f' as [|f']; [lia|]. apply agrees_S, IH. lia.
Qed.

Lemma scan_once_fuel (f f' d : nat) (s : pystr) :
  (2 * List.length s < f)%nat -> (f <= f')%nat ->
  scan_once maxd f' d s = scan_once maxd f d s.
Proof.
  intros Hf Hle. apply (proj1 (agrees_le f f' Hle)).
  now apply (proj1 (scan_fuel_enough f)).
Qed.

(** *** What is left of the text *)

Lemma suffix_trans (r s t : pystr) : suffix r s -> suffix s t -> suffix r t.
Proof. intros H1 H2. induction H2; [exact H1 | now constructor]. Qed.

Lemma suffix_skip_ws (s : pystr) : suffix (skip_ws s) s.
Proof.
  induction s as [|c s IH]; simpl; [constructor|].
  destruct (is_ws c); [now constructor | constructor].
Qed.

Lemma suffix_skipn (k : nat) (s : pystr) : suffix (skipn k s) s.
Proof.
  revert s. induction k as [|k IH]; intros [|c s]; simpl; try constructor. apply IH.
Qed.

Lemma suffix_digits (s : pystr) : suffix (snd (digits s)) s.
Proof.
  induction s as [|c s IH]; simpl; [constructor|].
  destruct (is_digit c); [|constructor].
  destruct (digits s); simpl in *. now constructor.
Qed.

Lemma suffix_count_open (r s : pystr) : suffix r s -> (count_open r <= count_open s)%nat.
Proof.
  induction 1 as [|c s _ IH]; [lia|]. simpl.
  destruct ((c =? 91) || (c =? 123)); lia.
Qed.

Lemma digit_run_le_max (s : pystr) : (digit_run s <= max_digit_run s)%nat.
Proof. destruct s; simpl; lia. Qed.

Lemma suffix_max_digit_run (r s : pystr) :
  suffix r s -> (max_digit_run r <= max_digit_run s)%nat.
Proof.
  induction 1 as [|c s _ IH]; [lia|].
  change (max_digit_run (c :: s)) with (Nat.max (digit_run (c :: s)) (max_digit_run s)). lia.
Qed.

Lemma digits_run (s : pystr) : List.length (fst (digits s)) = digit_run s.
Proof.
  induction s as [|c s IH]; simpl; [reflexivity|].
  destruct (is_digit c); [|reflexivity].
  destruct (digits s); simpl in *. now rewrite IH.
Qed.

Ltac suffix_done := first [ exact I | repeat first [apply suffix_here | apply suffix_cons] ].

Lemma chunk_suffix (s : pystr) :
  match scan_chunk s with
  | Closing r | Char _ r => suffix r s
  | _ => True
  end.
Proof.
  destruct s as [|c s1]; [exact I|].
  cbn [scan_chunk].
  destruct (c =? 34); [suffix_done|].
  destruct (c =? 92); [|destruct (c <=? 31); suffix_done].
  destruct s1 as [|e s2]; [exact I|].
  destruct (e =? 117); [|destruct (unescape e); suffix_done].
  destruct s2 as [|h1 [|h2 [|h3 [|h4 [|y s3]]]]]; try exact I.
  destruct (hex4 h1 h2 h3 h4) as [c1|]; [|exact I].
  destruct (is_high_surrogate c1); [|suffix_done].
  destruct s3 as [|u [|g1 [|g2 [|g3 [|g4 [|z s4]]]]]]; try suffix_done.
  destruct ((y =? 92) && (u =? 117)); [|suffix_done].
  destruct (hex4 g1 g2 g3 g4) as [c2|]; [|exact I].
  destruct (is_low_surrogate c2); suffix_done.
Qed.

Lemma scanstring_loop_suffix :
  forall n s, (List.length s <= n)%nat ->
  forall b acc v r, scanstring_loop b s acc = Scanned v r -> suffix r s.
Proof.
  induction n as [|n IH]; intros s Hlen b acc v r H.
  - destruct s; [discriminate H|simpl in Hlen; lia].
  - rewrite scanstring_loop_step in H.
    pose proof (chunk_lt s) as Hl. pose proof (chunk_suffix s) as Hs.
    destruct (scan_chunk s) as [r'|ch r'|m k|]; try discriminate H.
    + injection H as <- <-. exact Hs.
    + apply IH in H; [|lia]. exact (suffix_trans _ _ _ H Hs).
Qed.

Lemma scanstring_suffix (s v r : pystr) : scanstring s = Scanned v r -> suffix r s.
Proof. apply (scanstring_loop_suffix (List.length s) s (le_n _)). Qed.

Lemma scanstring_loop_no_failure :
  forall n s, (List.length s <= n)%nat ->
  forall b acc e, scanstring_loop b s acc <> Fails e.
Proof.
  induction n as [|n IH]; intros s Hlen b acc e.
  - destruct s; [discriminate|simpl in Hlen; lia].
  - rewrite scanstring_loop_step. pose proof (chunk_lt s) as Hl.
    destruct (scan_chunk s) as [r'|ch r'|m k|]; try discriminate.
    apply IH. lia.
Qed.

Lemma scanstring_no_failure (s : pystr) (e : exn) : scanstring s <> Fails e.
Proof. apply (scanstring_loop_no_failure (List.length s) s (le_n _)). Qed.

Lemma int_part_suffix (s ip r : pystr) :
  int_part s = Some (ip, r) -> suffix r s /\ (List.length ip <= digit_run s)%nat.
Proof.
  destruct s as [|c s]; [discriminate|]. unfold int_part.
  destruct ((49 <=? c) && (c <=? 57)) eqn:E.
  - pose proof (suffix_digits s) as Hd. pose proof (digits_run s) as Hr.
    destruct (digits s) as [ds r']. intros H. injection H as <- <-. simpl in *.
    split; [now constructor|].
    replace (is_digit c) with true; [lia|].
    symmetry. unfold is_digit. apply andb_true_iff in E as [E1 E2].
    rewrite E2, andb_true_r. apply N.leb_le in E1. apply N.leb_le. lia.
  - destruct (c =? 48) eqn:E0; [|discriminate]. intros H. injection H as <- <-.
    split; [repeat constructor|].
    apply N.eqb_eq in E0. subst c. simpl. lia.
Qed.

Lemma frac_part_suffix (s : pystr) : suffix (snd (frac_part s)) s.
Proof.
  destruct s as [|p [|d r]]; simpl; [constructor|constructor|].
  destruct ((p =? 46) && is_digit d); [|constructor].
  pose proof (suffix_digits r). destruct (digits r); simpl in *. now repeat constructor.
Qed.

Lemma exp_part_suffix (s : pystr) : suffix (snd (exp_part s)) s.
Proof.
  destruct s as [|e r]; simpl; [constructor|].
  destruct ((e =? 101) || (e =? 69)); [|constructor].
  destruct r as [|sg r'].
  - simpl. constructor.
  - destruct ((sg =? 45) || (sg =? 43)).
    + pose proof (suffix_digits r'). destruct (digits r') as [[|d ds] r'']; simpl in *;
        [constructor | now repeat constructor].
    + pose proof (suffix_digits (sg :: r')).
      destruct (digits (sg :: r')) as [[|d ds] r'']; simpl in *;
        [constructor | now constructor].
Qed.

Lemma minus_sign_suffix (s : pystr) : suffix (snd (minus_sign s)) s.
Proof. destruct s as [|c s']; simpl; [constructor|]. destruct (c =? 45); repeat constructor. Qed.

Lemma match_number_suffix (s : pystr) (v : json) (r : pystr) :
  match_number maxd s = Scanned v r -> suffix r s.
Proof.
  unfold match_number.
  pose proof (minus_sign_suffix s) as Hp. destruct (minus_sign s) as [neg s1]. simpl in Hp.
  destruct (int_part s1) as [[ip r1]|] eqn:E; [|discriminate].
  apply int_part_suffix in E as [E _].
  pose proof (frac_part_suffix r1) as Hf. destruct (frac_part r1) as [frac r2].
  pose proof (exp_part_suffix r2) as He. destruct (exp_part r2) as [exp r3].
  simpl in *.
  assert (G : suffix r3 s) by eauto using suffix_trans.
  destruct (frac ++ exp); [destruct (exceeds_digit_limit _ _); [discriminate|]|];
    intros H; injection H as _ <-; exact G.
Qed.

Lemma match_number_limit (s : pystr) (e : exn) :
  match_number maxd s = Fails e -> forall d, limit_error maxd d s e.
Proof.
  unfold match_number.
  pose proof (minus_sign_suffix s) as Hp. destruct (minus_sign s) as [neg s1]. simpl in Hp.
  destruct (int_part s1) as [[ip r1]|] eqn:E; [|discriminate].
  apply int_part_suffix in E as [_ E].
  destruct (frac_part r1) as [frac r2]. destruct (exp_part r2) as [exp r3].
  destruct (frac ++ exp); [|discriminate].
  destruct (exceeds_digit_limit maxd (List.length ip)) eqn:Ex; [|discriminate].
  intros H d. injection H as <-. right. exists (List.length ip).
  split; [reflexivity|]. split; [exact Ex|].
  pose proof (digit_run_le_max s1). pose proof (suffix_max_digit_run s1 s Hp). lia.
Qed.

Lemma scan_atom_suffix (s : pystr) (v : json) (r : pystr) :
  scan_atom maxd s = Scanned v r -> suffix r s.
Proof.
  unfold scan_atom.
  repeat match goal with
         | |- context [if startswith s ?p then _ else _] =>
             destruct (startswith s p);
             [ intros H; apply Scanned_inj in H as [_ <-]; apply suffix_skipn | ]
         end.
  apply match_number_suffix.
Qed.

Lemma scan_atom_limit (s : pystr) (e : exn) :
  scan_atom maxd s = Fails e -> forall d, limit_error maxd d s e.
Proof.
  unfold scan_atom.
  repeat match goal with
         | |- context [if ?b then _ else _] => destruct b; [discriminate|]
         end.
  apply match_number_limit.
Qed.

Lemma scan_string_value_suffix (s : pystr) (v : json) (r : pystr) :
  scan_string_value s = Scanned v r -> suffix r s.
Proof.
  unfold scan_string_value. destruct (scanstring s) as [str r'| | | |] eqn:E; try discriminate.
  intros H. apply Scanned_inj in H as [_ <-]. now apply scanstring_suffix in E.
Qed.

Lemma scan_string_value_no_failure (s : pystr) (e : exn) : scan_string_value s <> Fails e.
Proof.
  unfold scan_string_value. pose proof (scanstring_no_failure s) as H.
  destruct (scanstring s); try discriminate. intros G. injection G as ->. now apply (H e).
Qed.

Lemma leaves_suffix (s s' : pystr) (res : scan json) :
  suffix s s' -> leaves s res -> leaves s' res.
Proof. destruct res; simpl; auto. intros H1 H2. exact (suffix_trans _ _ _ H2 H1). Qed.

Lemma scan_suffix (fuel : nat) :
  (forall d s, leaves s (scan_once maxd fuel d s))
  /\ (forall d s values, leaves s (array_loop maxd fuel d s values))
  /\ (forall d s pairs, leaves s (object_loop maxd fuel d s pairs)).
Proof.
  induction fuel as [|f (IHs & IHa & IHo)]; [repeat split; intros; exact I|].
  repeat split.
  - intros d s. cbn [scan_once]. destruct s as [|c s1]; [exact I|].
    destruct (c =? 34).
    { pose proof (scan_string_value_suffix s1) as H. unfold leaves.
      destruct (scan_string_value s1); auto. constructor. exact (H _ _ eq_refl). }
    assert (Hw : suffix (skip_ws s1) (c :: s1)) by (constructor; apply suffix_skip_ws).
    destruct (c =? 123).
    { destruct d as [|d']; [exact I|].
      destruct (startswith (skip_ws s1) [125]).
      - exact (suffix_trans _ _ _ (suffix_skipn 1 _) Hw).
      - apply (leaves_suffix (skip_ws s1)); [exact Hw | apply IHo]. }
    destruct (c =? 91).
    { destruct d as [|d']; [exact I|].
      destruct (startswith (skip_ws s1) [93]).
      - exact (suffix_trans _ _ _ (suffix_skipn 1 _) Hw).
      - apply (leaves_suffix (skip_ws s1)); [exact Hw | apply IHa]. }
    pose proof (scan_atom_suffix (c :: s1)) as H. unfold leaves.
    destruct (scan_atom maxd (c :: s1)); auto. exact (H _ _ eq_refl).
  - intros d s values. cbn [array_loop]. specialize (IHs d s). unfold leaves in IHs.
    destruct (scan_once maxd f d s) as [val r| | | |]; try exact I.
    assert (Hw : suffix (skipn 1 (skip_ws r)) s).
    { eapply suffix_trans; [apply suffix_skipn|].
      eapply suffix_trans; [apply suffix_skip_ws|exact IHs]. }
    destruct (startswith (skip_ws r) [93]); [exact Hw|].
    destruct (startswith (skip_ws r) [44]); [|exact I].
    apply (leaves_suffix (skip_ws (skipn 1 (skip_ws r)))); [|apply IHa].
    exact (suffix_trans _ _ _ (suffix_skip_ws _) Hw).
  - intros d s pairs. cbn [object_loop].
    destruct (startswith s [34]); [|exact I].
    destruct (scanstring (skipn 1 s)) as [key r| | | |] eqn:Ek; try exact I.
    apply scanstring_suffix in Ek.
    assert (Hr : suffix r s) by exact (suffix_trans _ _ _ Ek (suffix_skipn 1 s)).
    destruct (startswith (skip_ws r) [58]); [|exact I].
    assert (Hv : suffix (skip_ws (skipn 1 (skip_ws r))) s).
    { eapply suffix_trans; [apply suffix_skip_ws|].
      eapply suffix_trans; [apply suffix_skipn|].
      eapply suffix_trans; [apply suffix_skip_ws|exact Hr]. }
    specialize (IHs d (skip_ws (skipn 1 (skip_ws r)))). unfold leaves in IHs.
    destruct (scan_once maxd f d (skip_ws (skipn 1 (skip_ws r)))) as [val r2| | | |]; try exact I.
    assert (Hw : suffix (skipn 1 (skip_ws r2)) s).
    { eapply suffix_trans; [apply suffix_skipn|].
      eapply suffix_trans; [apply suffix_skip_ws|].
      exact (suffix_trans _ _ _ IHs Hv). }
    destruct (startswith (skip_ws r2) [125]); [exact Hw|].
    destruct (startswith (skip_ws r2) [44]); [|exact I].
    apply (leaves_suffix (skip_ws (skipn 1 (skip_ws r2)))); [|apply IHo].
    exact (suffix_trans _ _ _ (suffix_skip_ws _) Hw).
Qed.

(** *** The limits *)

Lemma limit_error_suffix (d : nat) (s s' : pystr) (e : exn) :
  suffix s s' -> limit_error maxd d s e -> limit_error maxd d s' e.
Proof.
  intros Hs [[He Hd]|(n & He & Hx & Hn)].
  - left. split; [exact He|]. pose proof (suffix_count_open s s' Hs). lia.
  - right. exists n. split; [exact He|]. split; [exact Hx|].
    pose proof (suffix_max_digit_run s s' Hs). lia.
Qed.

Lemma limit_error_open (d : nat) (c : N) (s1 s : pystr) (e : exn) :
  (c =? 91) || (c =? 123) = true -> suffix s s1 ->
  limit_error maxd d s e -> limit_error maxd (S d) (c :: s1) e.
Proof.
  intros Hc Hs [[He Hd]|(n & He & Hx & Hn)].
  - left. split; [exact He|]. pose proof (suffix_count_open s s1 Hs).
    simpl. rewrite Hc. lia.
  - right. exists n. split; [exact He|]. split; [exact Hx|].
    pose proof (suffix_max_digit_run s (c :: s1) (suffix_cons _ _ _ Hs)). lia.
Qed.

(** An exception of the scanner that is not a [JSONDecodeError] comes
    from one of the two limits. *)
Lemma scan_limit (fuel : nat) :
  (forall d s e, scan_once maxd fuel d s = Fails e -> limit_error maxd d s e)
  /\ (forall d s values e, array_loop maxd fuel d s values = Fails e -> limit_error maxd d s e)
  /\ (forall d s pairs e, object_loop maxd fuel d s pairs = Fails e -> limit_error maxd d s e).
Proof.
  induction fuel as [|f (IHs & IHa & IHo)]; [repeat split; intros; discriminate|].
  repeat split.
  - intros d s e. cbn [scan_once]. destruct s as [|c s1]; [discriminate|].
    destruct (c =? 34).
    { intros H. exfalso. exact (scan_string_value_no_failure s1 e H). }
    destruct (c =? 123) eqn:E123.
    { destruct d as [|d'].
      - intros H. injection H as <-. left. split; [now right|].
        simpl. rewrite E123, orb_true_r. lia.
      - destruct (startswith (skip_ws s1) [125]); [discriminate|].
        intros H. apply IHo in H.
        apply (limit_error_open d' c s1 (skip_ws s1) e); [|apply suffix_skip_ws|exact H].
        now rewrite E123, orb_true_r. }
    destruct (c =? 91) eqn:E91.
    { destruct d as [|d'].
      - intros H. injection H as <-. left. split; [now left|].
        simpl. rewrite E91. simpl. lia.
      - destruct (startswith (skip_ws s1) [93]); [discriminate|].
        intros H. apply IHa in H.
        apply (limit_error_open d' c s1 (skip_ws s1) e); [|apply suffix_skip_ws|exact H].
        now rewrite E91. }
    intros H. now apply scan_atom_limit.
  - intros d s values e. cbn [array_loop].
    pose proof (proj1 (scan_suffix f) d s) as Hl. unfold leaves in Hl.
    destruct (scan_once maxd f d s) as [val r| | |e'|] eqn:E; try discriminate.
    + destruct (startswith (skip_ws r) [93]); [discriminate|].
      destruct (startswith (skip_ws r) [44]); [|discriminate].
      intros H. apply IHa in H. revert H. apply limit_error_suffix.
      eapply suffix_trans; [apply suffix_skip_ws|].
      eapply suffix_trans; [apply suffix_skipn|].
      eapply suffix_trans; [apply suffix_skip_ws|exact Hl].
    + intros H. injection H as <-. now apply IHs.
  - intros d s pairs e. cbn [object_loop].
    destruct (startswith s [34]); [|discriminate].
    destruct (scanstring (skipn 1 s)) as [key r| | |e'|] eqn:Ek; try discriminate.
    2:{ exfalso. exact (scanstring_no_failure _ _ Ek). }
    apply scanstring_suffix in Ek.
    assert (Hr : suffix r s) by exact (suffix_trans _ _ _ Ek (suffix_skipn 1 s)).
    destruct (startswith (skip_ws r) [58]); [|discriminate].
    assert (Hv : suffix (skip_ws (skipn 1 (skip_ws r))) s).
    { eapply suffix_trans; [apply suffix_skip_ws|].
      eapply suffix_trans; [apply suffix_skipn|].
      eapply suffix_trans; [apply suffix_skip_ws|exact Hr]. }
    pose proof (proj1 (scan_suffix f) d (skip_ws (skipn 1 (skip_ws r)))) as Hl.
    unfold leaves in Hl.
    destruct (scan_once maxd f d (skip_ws (skipn 1 (skip_ws r)))) as [val r2| | |e'|] eqn:E;
      try discriminate.
    + destruct (startswith (skip_ws r2) [125]); [discriminate|].
      destruct (startswith (skip_ws r2) [44]); [|discriminate].
      intros H. apply IHo in H. revert H. apply limit_error_suffix.
      eapply suffix_trans; [apply suffix_skip_ws|].
      eapply suffix_trans; [apply suffix_skipn|].
      eapply suffix_trans; [apply suffix_skip_ws|].
      exact (suffix_trans _ _ _ Hl Hv).
    + intros H. injection H as <-. apply IHs in E.
      exact (limit_error_suffix d _ s e' Hv E).
Qed.

(** *** A character after the value *)

Section Trailer.

Variable c : N.
Hypothesis Hc : trailer c = true.

Lemma trailer_not_single (k : N) :
  (33 <= k <= 95 \/ 97 <= k <= 132) -> ~ In c [k].
Proof.
  intros Hk [H|[]]. pose proof (trailer_range c Hc). lia.
Qed.

Lemma startswith_ws_snoc (r0 : pystr) (k : N) :
  (33 <= k <= 95 \/ 97 <= k <= 132) ->
  startswith (skip_ws (r0 ++ [c])) [k] = startswith (skip_ws r0) [k].
Proof.
  intros Hk. rewrite skip_ws_snoc. destruct (skip_ws r0) as [|x r] eqn:E.
  - destruct (is_ws c); [reflexivity|]. simpl.
    now rewrite (proj2 (trailer_eqb c k Hc Hk)).
  - apply startswith_snoc. now apply trailer_not_single.
Qed.

Lemma skipn_ws_snoc (r0 : pystr) (k : N) :
  startswith (skip_ws r0) [k] = true ->
  skipn 1 (skip_ws (r0 ++ [c])) = skipn 1 (skip_ws r0) ++ [c].
Proof.
  intros H. apply startswith_single in H. rewrite skip_ws_snoc.
  destruct (skip_ws r0) as [|x r]; [discriminate H|]. reflexivity.
Qed.

Lemma scan_string_value_snoc (s0 : pystr) (v : json) (rest : pystr) :
  scan_string_value (s0 ++ [c]) = Scanned v rest ->
  exists rest0, rest = rest0 ++ [c] /\ scan_string_value s0 = Scanned v rest0.
Proof.
  unfold scan_string_value.
  destruct (scanstring (s0 ++ [c])) as [str r| | | |] eqn:E; try discriminate.
  intros H. apply Scanned_inj in H as [<- <-].
  apply (scanstring_snoc c s0 str r Hc) in E as (r0 & -> & ->). now exists r0.
Qed.

(** A scanner entered after white space. *)
Lemma snoc_ok_ws (F : pystr -> scan json) :
  snoc_ok c F -> (forall v r, F [] <> Scanned v r) -> snoc_ok c (fun s => F (skip_ws s)).
Proof.
  intros HF Hnil s0 v rest. rewrite skip_ws_snoc.
  destruct (skip_ws s0) as [|x r] eqn:E.
  - destruct (is_ws c).
    + intros H. exfalso. exact (Hnil _ _ H).
    + apply (HF []).
  - apply (HF (x :: r)).
Qed.

Lemma scan_nil (fuel d : nat) :
  (forall v r, scan_once maxd fuel d [] <> Scanned v r)
  /\ (forall values v r, array_loop maxd fuel d [] values <> Scanned v r)
  /\ (forall pairs v r, object_loop maxd fuel d [] pairs <> Scanned v r).
Proof.
  destruct fuel as [|[|f]]; repeat split; intros; discriminate.
Qed.

Lemma scan_snoc (fuel : nat) :
  (forall d, snoc_ok c (scan_once maxd fuel d))
  /\ (forall d values, snoc_ok c (fun s => array_loop maxd fuel d (skip_ws s) values))
  /\ (forall d pairs, snoc_ok c (fun s => object_loop maxd fuel d (skip_ws s) pairs)).
Proof.
  induction fuel as [|f (IHs & IHa & IHo)].
  { repeat split; unfold snoc_ok; intros;
      match goal with H : _ = Scanned _ _ |- _ => discriminate H end. }
  assert (IHw : forall d, snoc_ok c (fun s => scan_once maxd f d (skip_ws s))).
  { intros d. apply snoc_ok_ws; [apply IHs | apply scan_nil]. }
  repeat split.
  - intros d s0 v rest. destruct s0 as [|x s1].
    + cbn [app scan_once].
      rewrite (proj1 (trailer_eqb c 34 Hc ltac:(lia))),
              (proj1 (trailer_eqb c 123 Hc ltac:(lia))),
              (proj1 (trailer_eqb c 91 Hc ltac:(lia))).
      intros H. apply (scan_atom_snoc [] c v rest Hc) in H as (rest0 & _ & H).
      discriminate H.
    + cbn [app scan_once].
      destruct (x =? 34); [apply scan_string_value_snoc|].
      destruct (x =? 123).
      { destruct d as [|d']; [discriminate|].
        rewrite (startswith_ws_snoc s1 125 ltac:(lia)).
        destruct (startswith (skip_ws s1) [125]) eqn:E.
        - intros H. apply Scanned_inj in H as [<- <-].
          eexists. split; [apply (skipn_ws_snoc s1 125 E)|reflexivity].
        - apply (IHo d' [] s1). }
      destruct (x =? 91).
      { destruct d as [|d']; [discriminate|].
        rewrite (startswith_ws_snoc s1 93 ltac:(lia)).
        destruct (startswith (skip_ws s1) [93]) eqn:E.
        - intros H. apply Scanned_inj in H as [<- <-].
          eexists. split; [apply (skipn_ws_snoc s1 93 E)|reflexivity].
        - apply (IHa d' [] s1). }
      apply (scan_atom_snoc (x :: s1) c v rest Hc).
  - intros d values s0 v rest. cbn [array_loop].
    destruct (scan_once maxd f d (skip_ws (s0 ++ [c]))) as [val r| | | |] eqn:E;
      try discriminate.
    apply IHw in E as (r0 & -> & ->).
    rewrite (startswith_ws_snoc r0 93 ltac:(lia)).
    destruct (startswith (skip_ws r0) [93]) eqn:E1.
    { intros H. apply Scanned_inj in H as [<- <-].
      eexists. split; [apply (skipn_ws_snoc r0 93 E1)|reflexivity]. }
    rewrite (startswith_ws_snoc r0 44 ltac:(lia)).
    destruct (startswith (skip_ws r0) [44]) eqn:E2; [|discriminate].
    rewrite (skipn_ws_snoc r0 44 E2). apply (IHa d (values ++ [val])).
  - intros d pairs s0 v rest. cbn [object_loop].
    rewrite (startswith_ws_snoc s0 34 ltac:(lia)).
    destruct (startswith (skip_ws s0) [34]) eqn:E; [|discriminate].
    rewrite (skipn_ws_snoc s0 34 E).
    destruct (scanstring (skipn 1 (skip_ws s0) ++ [c])) as [key r| | | |] eqn:Ek;
      try discriminate.
    apply (scanstring_snoc c _ key r Hc) in Ek as (r0 & -> & ->).
    rewrite (startswith_ws_snoc r0 58 ltac:(lia)).
    destruct (startswith (skip_ws r0) [58]) eqn:Ec; [|discriminate].
    rewrite (skipn_ws_snoc r0 58 Ec).
    destruct (scan_once maxd f d (skip_ws (skipn 1 (skip_ws r0) ++ [c])))
      as [val r2| | | |] eqn:Ev; try discriminate.
    apply IHw in Ev as (r3 & -> & ->).
    rewrite (startswith_ws_snoc r3 125 ltac:(lia)).
    destruct (startswith (skip_ws r3) [125]) eqn:E1.
    { intros H. apply Scanned_inj in H as [<- <-].
      eexists. split; [apply (skipn_ws_snoc r3 125 E1)|reflexivity]. }
    rewrite (startswith_ws_snoc r3 44 ltac:(lia)).
    destruct (startswith (skip_ws r3) [44]) eqn:E2; [|discriminate].
    rewrite (skipn_ws_snoc r3 44 E2). apply (IHo d (dict_set key val pairs)).
Qed.

End Trailer.

(** *** The first character of a value *)

Lemma value_start_facts (x : N) :
  value_start x = true -> 34 <= x <= 123 /\ x <> 96.
Proof.
  unfold value_start, is_digit. intros H.
  repeat match type of H with
         | (_ || _) = true => apply orb_true_iff in H; destruct H as [H|H]
         | (_ && _) = true => apply andb_true_iff in H; destruct H as [H ?]
         end;
  repeat match goal with
         | H : (_ <=? _) = true |- _ => apply N.leb_le in H
         | H : (_ =? _) = true |- _ => apply N.eqb_eq in H
         end; lia.
Qed.

Lemma value_start_not_trailer (x : N) : value_start x = true -> trailer x = false.
Proof.
  intros H. apply value_start_facts in H.
  destruct (trailer x) eqn:E; [|reflexivity].
  apply trailer_range in E. lia.
Qed.

Lemma startswith_head (x : N) (t p : pystr) (k : N) :
  startswith (x :: t) (k :: p) = true -> x = k.
Proof.
  simpl. intros H. apply andb_true_iff in H as [H _]. apply N.eqb_eq in H. congruence.
Qed.

Lemma scan_atom_first (x : N) (t : pystr) (v : json) (r : pystr) :
  scan_atom maxd (x :: t) = Scanned v r -> value_start x = true.
Proof.
  unfold scan_atom.
  repeat match goal with
         | |- context [if startswith (x :: t) (lit ?n) then _ else _] =>
             let E := fresh "E" in
             destruct (startswith (x :: t) (lit n)) eqn:E;
             [ apply startswith_head in E; subst x; reflexivity | clear E ]
         end.
  unfold match_number, minus_sign.
  destruct (x =? 45) eqn:E45.
  { intros _. unfold value_start. rewrite E45. now rewrite !orb_true_r. }
  unfold int_part.
  destruct ((49 <=? x) && (x <=? 57)) eqn:E1.
  { intros _. unfold value_start, is_digit.
    apply andb_true_iff in E1 as [E1 E2]. apply N.leb_le in E1.
    replace (48 <=? x) with true by (symmetry; apply N.leb_le; lia).
    rewrite E2. now rewrite !orb_true_r. }
  destruct (x =? 48) eqn:E0; [|discriminate].
  intros _. apply N.eqb_eq in E0. subst x. reflexivity.
Qed.

Lemma scan_once_first (fuel d : nat) (x : N) (t : pystr) (v : json) (r : pystr) :
  scan_once maxd fuel d (x :: t) = Scanned v r -> value_start x = true.
Proof.
  destruct fuel as [|f]; [discriminate|]. cbn [scan_once].
  destruct (x =? 34) eqn:E1; [intros _; unfold value_start; now rewrite E1|].
  destruct (x =? 123) eqn:E2; [intros _; unfold value_start; now rewrite E2, !orb_true_r|].
  destruct (x =? 91) eqn:E3; [intros _; unfold value_start; now rewrite E3, !orb_true_r|].
  apply scan_atom_first.
Qed.

End Scanner.

(** *** [json.loads] and [str.strip] *)

Section Loads.

Import Json.
Local Open Scope N_scope.

Variable lim : limits.

Local Abbreviation maxd := (int_max_str_digits lim).
Local Abbreviation depth := (recursion_limit lim).

(** What [loads] returns does not depend on the fuel it runs with. *)
Lemma loads_ok (s : pystr) (v : json) :
  loads lim s = Ok v <->
  startswith s [65279] = false
  /\ exists fuel rest, scan_once maxd fuel depth (skip_ws s) = Scanned v rest
                       /\ skip_ws rest = [].
Proof.
  unfold loads. split.
  - destruct (startswith s [65279]); [discriminate|]. intros H. split; [reflexivity|].
    destruct (scan_once maxd (2 * List.length s + 2) depth (skip_ws s))
      as [obj rest| | | |] eqn:E; try discriminate.
    destruct (skip_ws rest) eqn:Er; [|discriminate].
    injection H as <-. now exists (2 * List.length s + 2)%nat, rest.
  - intros (-> & fuel & rest & E & Er).
    assert (E' : scan_once maxd (2 * List.length s + 2) depth (skip_ws s) = Scanned v rest).
    { pose proof (skip_ws_le s) as Hw.
      destruct (Nat.le_gt_cases fuel (2 * List.length s + 2)) as [Hle|Hgt].
      - rewrite (proj1 (agrees_le maxd _ _ Hle)); [exact E|]. rewrite E. discriminate.
      - rewrite <- E. symmetry. apply scan_once_fuel; lia. }
    rewrite E', Er. reflexivity.
Qed.

(** The fuel of [loads] is enough. *)
Lemma loads_fuel (s : pystr) :
  scan_once maxd (2 * List.length s + 2) depth (skip_ws s) <> OutOfFuel.
Proof.
  pose proof (skip_ws_le s) as Hw.
  apply (proj1 (scan_fuel_enough maxd (2 * List.length s + 2))). lia.
Qed.

(** [loads] raises a [JSONDecodeError] on the text it was given, unless it
    meets one of the limits of the interpreter. *)
Lemma loads_raises (s : pystr) (e : exn) :
  loads lim s = Raise e ->
  (exists msg pos, e = JSONDecodeError msg s pos) \/ limit_error maxd depth s e.
Proof.
  pose proof (loads_fuel s) as Hf. unfold loads.
  destruct (startswith s [65279]).
  { intros H. injection H as <-. left. eauto. }
  destruct (scan_once maxd (2 * List.length s + 2) depth (skip_ws s))
    as [obj rest|n|m n|e'|] eqn:E.
  - destruct (skip_ws rest); [discriminate|]. intros H. injection H as <-. left. eauto.
  - intros H. injection H as <-. left. eauto.
  - intros H. injection H as <-. left. eauto.
  - intros H. injection H as <-. right.
    apply (proj1 (scan_limit maxd _)) in E.
    exact (limit_error_suffix maxd depth _ s e' (suffix_skip_ws s) E).
  - congruence.
Qed.

Lemma startswith_cons_ne (x : N) (t : pystr) (k : N) (p : pystr) :
  k <> x -> startswith (x :: t) (k :: p) = false.
Proof.
  intros H. cbn [startswith]. destruct (N.eqb_spec k x); [contradiction|reflexivity].
Qed.

Lemma trailer_not_bom (c : N) : trailer c = true -> ~ In c [65279].
Proof. intros H [<-|[]]. discriminate H. Qed.

(** A character of [str.strip]'s whitespace, or a backtick, at the end of
    a document that parses is JSON whitespace, and the document parses
    without it. *)
Lemma loads_drop_trailer (s : pystr) (c : N) (v : json) :
  trailer c = true -> loads lim (s ++ [c]) = Ok v ->
  loads lim s = Ok v /\ is_ws c = true.
Proof.
  intros Hc H. apply loads_ok in H as (Hbom & fuel & rest & E & Er).
  rewrite (startswith_snoc [65279] s c (trailer_not_bom c Hc)) in Hbom.
  apply (snoc_ok_ws c (scan_once maxd fuel depth) (proj1 (scan_snoc maxd c Hc fuel) depth)
           (proj1 (scan_nil maxd fuel depth))) in E as (rest0 & -> & E).
  rewrite skip_ws_snoc in Er.
  destruct (skip_ws rest0) as [|y l] eqn:Er0; [|simpl in Er; discriminate Er].
  destruct (is_ws c) eqn:Ews; [|discriminate Er].
  split; [|reflexivity]. apply loads_ok. split; [exact Hbom|]. now exists fuel, rest0.
Qed.

Lemma is_ws_isspace (c : N) : is_ws c = true -> isspace c = true.
Proof.
  unfold is_ws. intros H.
  repeat (apply orb_true_iff in H; destruct H as [H|H]);
    apply N.eqb_eq in H; subst c; reflexivity.
Qed.

Lemma loads_rstrip (d : pystr) (v : json) :
  loads lim d = Ok v ->
  loads lim (rstrip d) = Ok v /\ endswith (rstrip d) fence = false.
Proof.
  induction d as [|c s IH] using rev_ind; intros H.
  - discriminate H.
  - rewrite rstrip_snoc. destruct (isspace c) eqn:Esp.
    + assert (Hc : trailer c = true) by (unfold trailer; now rewrite Esp).
      apply (loads_drop_trailer s c v Hc) in H as [H _]. now apply IH.
    + split; [exact H|].
      unfold endswith. rewrite rev_app_distr.
      destruct (N.eq_dec 96 c) as [<-|Hne].
      * apply (loads_drop_trailer s 96 v eq_refl) in H as [_ H]. discriminate H.
      * change (rev fence) with [96; 96; 96]. now apply startswith_cons_ne.
Qed.

Lemma lstrip_skip_ws (d : pystr) (x : N) (t : pystr) :
  skip_ws d = x :: t -> isspace x = false -> lstrip d = skip_ws d.
Proof.
  induction d as [|c d IH]; [discriminate|].
  simpl. destruct (is_ws c) eqn:Ews.
  - rewrite (is_ws_isspace c Ews). exact IH.
  - intros H Hx. injection H as -> ->. now rewrite Hx.
Qed.

Lemma loads_lstrip (d : pystr) (v : json) :
  loads lim d = Ok v ->
  loads lim (lstrip d) = Ok v /\ startswith (lstrip d) fence = false.
Proof.
  intros H. apply loads_ok in H as (Hbom & fuel & rest & E & Er).
  destruct (skip_ws d) as [|x t] eqn:Ed.
  { exfalso. exact (proj1 (scan_nil maxd fuel depth) _ _ E). }
  pose proof (scan_once_first maxd fuel depth x t v rest E) as Hx.
  pose proof (value_start_not_trailer x Hx) as Ht.
  apply value_start_facts in Hx.
  unfold trailer in Ht. apply orb_false_iff in Ht as [Hsp _].
  rewrite (lstrip_skip_ws d x t Ed Hsp), Ed. split.
  - apply loads_ok. split.
    + apply startswith_cons_ne. lia.
    + exists fuel, rest. split; [|exact Er].
      cbn [skip_ws]. destruct (is_ws x) eqn:Ews; [|exact E].
      apply is_ws_isspace in Ews. congruence.
  - change fence with [96; 96; 96]. apply startswith_cons_ne. lia.
Qed.

(** A document that parses still parses, to the same value, after
    [strip], and its stripped text neither begins nor ends with a fence
    marker. *)
Lemma loads_strip (d : pystr) (v : json) :
  loads lim d = Ok v ->
  loads lim (strip d) = Ok v
  /\ startswith (strip d) fence = false
  /\ endswith (strip d) fence = false.
Proof.
  intros H. split; [|split].
  - unfold strip. apply loads_lstrip. now apply loads_rstrip.
  - unfold strip. apply (loads_lstrip (rstrip d) v). now apply loads_rstrip.
  - unfold strip. rewrite lstrip_rstrip_comm.
    apply (loads_rstrip (lstrip d) v). now apply loads_lstrip.
Qed.

End Loads.


(** ** Report construction *)

Lemma dict_get_set (k k' : pystr) (v : json) (d : list (pystr * json)) :
  dict_get k' (dict_set k v d) = if PyStr.eqb k k' then Some v else dict_get k' d.
Proof.
  induction d as [|[k0 x] d IH]; simpl.
  - destruct (PyStr.eqb k k'); reflexivity.
  - destruct (PyStr.eqb k0 k) eqn:E0; simpl.
    + apply eqb_eq in E0. subst k0. destruct (PyStr.eqb k k'); reflexivity.
    + rewrite IH. destruct (PyStr.eqb k k') eqn:E1; [|reflexivity].
      apply eqb_eq in E1. subst k'. now rewrite E0.
Qed.

Lemma dict_get_set_other (k k' : pystr) (v : json) (d : list (pystr * json)) :
  k <> k' -> dict_get k' (dict_set k v d) = dict_get k' d.
Proof. intros H. rewrite dict_get_set. apply eqb_neq in H. now rewrite H. Qed.

Lemma dict_get_set_same (k : pystr) (v : json) (d : list (pystr * json)) :
  dict_get k (dict_set k v d) = Some v.
Proof. now rewrite dict_get_set, eqb_refl. Qed.

(** The names of the fields of [AnalysisReport]. *)
Lemma dict_get_update_other (k : pystr) (extra d : list (pystr * json)) :
  ~ In k (List.map fst extra) -> dict_get k (dict_update d extra) = dict_get k d.
Proof.
  revert d. induction extra as [|[k0 v] extra IH]; intros d H; [reflexivity|].
  simpl in *. unfold dict_update in *. simpl. rewrite IH by tauto.
  apply dict_get_set_other. tauto.
Qed.

(** ** Strings read as integers *)

Section IntTextFacts.

Import Json IntText.
Local Open Scope N_scope.



















End IntTextFacts.

Section ModelProperties.

Local Abbreviation validate_report := validate_AnalysisReport.
Local Abbreviation init := AnalysisReport_init.

(** Validation reads a document only through the fields of the model. *)
Lemma validate_report_ext (d d' : list (pystr * json)) :
  (forall name, In name report_fields -> dict_get name d' = dict_get name d) ->
  validate_report d' = validate_report d.
Proof.
  intros H. unfold validate_AnalysisReport, required.
  repeat match goal with
         | |- context [dict_get (lit ?n) d'] =>
             rewrite (H (lit n)) by (unfold report_fields; simpl; tauto)
         end.
  reflexivity.
Qed.

Lemma vap_valid_inv {A B} (f : vres (A -> B)) (x : vres A) (b : B) :
  f <*> x = Valid b -> exists g a, f = Valid g /\ x = Valid a /\ b = g a.
Proof.
  destruct f as [g|], x as [a|]; simpl; try discriminate.
  intros H. injection H as <-. now exists g, a.
Qed.

Lemma required_set_other {A} (name : string) (val : validator A) loc k v d :
  k <> lit name -> required name val loc (dict_set k v d) = required name val loc d.
Proof. intros H. unfold required. now rewrite dict_get_set_other. Qed.

Lemma required_set_same {A} (name : string) (val : validator A) loc v d :
  required name val loc (dict_set (lit name) v d) = val (loc ++ [LocField (lit name)]) v.
Proof. unfold required. now rewrite dict_get_set_same. Qed.

(** A document validates exactly when each of the ten fields does, and the
    report holds what the fields validated to. *)
Lemma validate_report_valid (d : list (pystr * json)) (r : AnalysisReport) :
  validate_report d = Valid r <->
  required "crash_type" validate_str [] d = Valid (crash_type r)
  /\ required "severity" validate_str [] d = Valid (severity r)
  /\ required "confidence" (validate_int) [] d = Valid (confidence r)
  /\ required "root_cause" validate_str [] d = Valid (root_cause r)
  /\ required "detailed_analysis" validate_str [] d = Valid (detailed_analysis r)
  /\ required "affected_subsystem" validate_str [] d = Valid (affected_subsystem r)
  /\ required "probable_trigger" validate_str [] d = Valid (probable_trigger r)
  /\ required "suggested_fixes" (validate_list validate_str) [] d = Valid (suggested_fixes r)
  /\ required "related_issues" (validate_list validate_RelatedIssue) [] d
     = Valid (related_issues r)
  /\ required "annotated_trace" (validate_list validate_TraceFrame) [] d
     = Valid (annotated_trace r).
Proof.
  unfold validate_AnalysisReport. split.
  - intros H.
    repeat match goal with
           | H : _ <*> _ = Valid _ |- _ =>
               apply vap_valid_inv in H as (? & ? & H & ? & ?)
           end.
    injection H as <-. subst. simpl. repeat split; assumption.
  - intros (H1 & H2 & H3 & H4 & H5 & H6 & H7 & H8 & H9 & H10).
    rewrite H1, H2, H3, H4, H5, H6, H7, H8, H9, H10. simpl. now destruct r.
Qed.

Lemma vap_invalid_l {A B} (f : vres (A -> B)) (x : vres A) (err : error_detail) :
  (exists errs, f = Invalid errs /\ In err errs) ->
  exists errs, f <*> x = Invalid errs /\ In err errs.
Proof.
  intros (errs & -> & Hin). destruct x as [a|errs']; simpl.
  - now exists errs.
  - exists (errs ++ errs'). split; [reflexivity|]. apply in_or_app. now left.
Qed.

Lemma vap_invalid_r {A B} (f : vres (A -> B)) (x : vres A) (err : error_detail) :
  (exists errs, x = Invalid errs /\ In err errs) ->
  exists errs, f <*> x = Invalid errs /\ In err errs.
Proof.
  intros (errs & -> & Hin). destruct f as [g|errs']; simpl.
  - now exists errs.
  - exists (errs' ++ errs). split; [reflexivity|]. apply in_or_app. now right.
Qed.

Lemma required_missing {A} (name : string) (val : validator A) loc d :
  dict_get (lit name) d = None ->
  exists errs, required name val loc d = Invalid errs
               /\ In (ErrorDetail "missing" (loc ++ [LocField (lit name)])) errs.
Proof.
  intros H. unfold required. rewrite H. eexists. split; [reflexivity|]. now left.
Qed.

(** A document without one of the ten fields does not validate, and the
    errors name the field as missing. *)
Lemma validate_report_missing (d : list (pystr * json)) (name : pystr) :
  In name report_fields -> dict_get name d = None ->
  exists errs, validate_report d = Invalid errs
               /\ In (ErrorDetail "missing" [LocField name]) errs.
Proof.
  intros Hin Hget. unfold validate_AnalysisReport.
  unfold report_fields in Hin. simpl in Hin.
  repeat destruct Hin as [<-|Hin]; [..|contradiction];
    repeat first
      [ solve [ apply vap_invalid_r; apply (required_missing _ _ []); exact Hget ]
      | apply vap_invalid_l ].
Qed.

(** [r] with another confidence. *)
Ltac other_field := rewrite required_set_other by (cbv; discriminate).




(** C8. Whatever strings the document gives for [crash_type] and
    [severity], validation succeeds and the report holds them unchanged:
    the values are not checked against the advertised enumerations. *)
Theorem enum_fields_pass_through
    (data : list (pystr * json)) (r : AnalysisReport) (ct sev : pystr) :
  init (JObj data) = Ok r ->
  init (JObj (dict_set (lit "crash_type") (JStr ct)
                (dict_set (lit "severity") (JStr sev) data)))
  = Ok (with_enums ct sev r).
Proof.
  intros H. unfold AnalysisReport_init in *.
  destruct (validate_report data) as [r'|] eqn:E; [|discriminate].
  injection H as ->. apply validate_report_valid in E.
  destruct E as (H1 & H2 & H3 & H4 & H5 & H6 & H7 & H8 & H9 & H10).
  unfold validate_AnalysisReport.
  rewrite required_set_same. repeat other_field.
  rewrite required_set_same. repeat other_field.
  rewrite H3, H4, H5, H6, H7, H8, H9, H10. reflexivity.
Qed.

(** C10. Keys that are not fields of [AnalysisReport] do not matter:
    a document that validates still validates, to the same report, after
    any number of unknown keys are added to it. *)
Theorem unknown_fields_ignored
    (data extra : list (pystr * json)) (r : AnalysisReport) :
  init (JObj data) = Ok r ->
  (forall key, In key (List.map fst extra) -> ~ In key report_fields) ->
  init (JObj (dict_update data extra)) = Ok r.
Proof.
  intros H Hextra. unfold AnalysisReport_init in *.
  rewrite (validate_report_ext data (dict_update data extra)); [exact H|].
  intros name Hname. apply dict_get_update_other.
  intros Hin. exact (Hextra name Hin Hname).
Qed.

End ModelProperties.

(** ** Documents of the full shape *)

Lemma validate_items_str (loc : list loc_item) (l : list pystr) (i : nat) :
  validate_items validate_str loc i (List.map JStr l) = Valid l.
Proof.
  revert i. induction l as [|x l IH]; intros i; [reflexivity|].
  simpl. now rewrite IH.
Qed.

Lemma validate_issue_doc (loc : list loc_item) (i : RelatedIssue) (v : json) :
  issue_doc i v -> validate_RelatedIssue loc v = Valid i.
Proof.
  intros (data & -> & H1 & H2 & H3).
  unfold validate_RelatedIssue, required, optional. rewrite H1, H2, H3.
  now destruct i.
Qed.

Lemma validate_frame_doc (loc : list loc_item) (f : TraceFrame) (v : json) :
  frame_doc f v -> validate_TraceFrame loc v = Valid f.
Proof.
  intros (data & -> & H1 & H2).
  unfold validate_TraceFrame, required. rewrite H1, H2.
  now destruct f.
Qed.

Lemma validate_items_docs {A} (item : validator A) (doc : A -> json -> Prop)
    (loc : list loc_item) (l : list A) (vs : list json) :
  (forall loc a v, doc a v -> item loc v = Valid a) ->
  Forall2 doc l vs -> forall i, validate_items item loc i vs = Valid l.
Proof.
  intros Hitem H. induction H as [|a v l vs Hd _ IH]; intros i; [reflexivity|].
  simpl. now rewrite (Hitem _ a v Hd), IH.
Qed.

(** A document of the full shape validates into the report it writes
    down. *)
Lemma report_doc_valid (r : AnalysisReport) (v : json) :
  report_doc r v -> AnalysisReport_init v = Ok r.
Proof.
  intros (data & issues & frames & -> & H1 & H2 & H3 & H4 & H5 & H6 & H7 & H8
          & H9 & Hi & H10 & Hf).
  unfold AnalysisReport_init.
  assert (E : validate_AnalysisReport data = Valid r).
  { apply validate_report_valid. unfold required.
    rewrite H1, H2, H3, H4, H5, H6, H7, H8, H9, H10. simpl.
    rewrite validate_items_str.
    rewrite (validate_items_docs validate_RelatedIssue issue_doc _ _ _
               validate_issue_doc Hi).
    rewrite (validate_items_docs validate_TraceFrame frame_doc _ _ _
               validate_frame_doc Hf).
    repeat split; reflexivity. }
  now rewrite E.
Qed.

(** ** The endpoint *)

Section Endpoint.

Variable lim : limits.
Variable SYSTEM_PROMPT : pystr.
Variable messages_create : create_call -> res (list content_block).

Local Abbreviation analyze :=
  (analyze_crash lim SYSTEM_PROMPT messages_create).
Local Abbreviation validate := (validate_reply lim).
Local Abbreviation call := (completion_call SYSTEM_PROMPT).

(** A request with a log that is not blank reaches the client once, and
    its outcome is that of the reply's validation. *)
Lemma analyze_crash_reply (req : AnalyzeRequest) (text : pystr) (more : list content_block) :
  forallb isspace (log_text req) = false ->
  messages_create (call req) = Ok (TextBlock text :: more) ->
  analyze req
  = ([call req],
     match validate text with
     | Ok report => Returns report
     | Raise e => Raises (on_exception e)
     end).
Proof.
  intros Hlog Hmsg. unfold analyze_crash.
  destruct (strip (log_text req)) as [|c s] eqn:E.
  - apply strip_nil_all_space in E. congruence.
  - cbn [truthy negb]. rewrite Hmsg. reflexivity.
Qed.

(** C2. A request whose [log_text] is empty or all whitespace is refused
    with status 400 and the client is never called: the list of calls is
    empty. *)
Theorem blank_log_rejected (req : AnalyzeRequest) :
  forallb isspace (log_text req) = true ->
  analyze req
  = ([], Raises {| status_code := 400; detail := Detail (lit "log_text cannot be empty") |}).
Proof.
  intros H. unfold analyze_crash. now rewrite (strip_all_space _ H).
Qed.

(** C9. When the trimmed reply begins with a fence marker and holds no
    newline, the stripping step raises [IndexError], and the request fails
    with the detail [Analysis failed: list index out of range], not with
    the one of a malformed reply. *)
Theorem fence_without_newline (req : AnalyzeRequest) (text : pystr) (more : list content_block) :
  startswith (strip text) fence = true ->
  ~ In 10%N (strip text) ->
  forallb isspace (log_text req) = false ->
  messages_create (call req) = Ok (TextBlock text :: more) ->
  strip_fence text = Raise (IndexError (lit "list index out of range"))
  /\ analyze req
     = ([call req],
        Raises {| status_code := 500;
                  detail := DetailStr (lit "Analysis failed: ")
                              (IndexError (lit "list index out of range")) |})
  /\ forall e, snd (analyze req)
               <> Raises {| status_code := 500;
                            detail := DetailStr (lit "LLM returned invalid JSON: ") e |}.
Proof.
  intros Hs Hn Hlog Hmsg.
  pose proof (strip_fence_index_error _ Hs Hn) as E.
  assert (Ha : analyze req
     = ([call req],
        Raises {| status_code := 500;
                  detail := DetailStr (lit "Analysis failed: ")
                              (IndexError (lit "list index out of range")) |})).
  { rewrite (analyze_crash_reply req text more Hlog Hmsg). unfold validate_reply. now rewrite E. }
  split; [exact E|]. split; [exact Ha|].
  intros e. rewrite Ha. cbn [snd]. intros H. injection H as H _. discriminate H.
Qed.

(** An error of the limits is not a [JSONDecodeError]: the second handler
    takes it. *)
Lemma limit_error_detail (maxd depth : nat) (s : pystr) (e : exn) :
  Json.limit_error maxd depth s e ->
  on_exception e = {| status_code := 500; detail := DetailStr (lit "Analysis failed: ") e |}.
Proof. intros [[[-> | ->] _]|(n & -> & _)]; reflexivity. Qed.

(** C5, amended. When [json.loads] raises on the stripped text of the
    reply, the request fails with status 500 after its one call. The
    error is a [JSONDecodeError] on that text and the detail is
    [LLM returned invalid JSON:] followed by its message, unless the text
    meets a limit of the interpreter: it has more opening brackets than
    the recursion limit leaves and the error is a [RecursionError], or it
    has a run of digits above the limit on the digits of an integer and
    the error is a [ValueError]; the detail is then [Analysis failed:]
    followed by that error. A text within both limits on which
    [json.loads] raises is always classified as a malformed reply. *)
Theorem malformed_reply_classified
    (req : AnalyzeRequest) (text raw : pystr) (more : list content_block) (e : exn) :
  forallb isspace (log_text req) = false ->
  messages_create (call req) = Ok (TextBlock text :: more) ->
  strip_fence text = Ok raw ->
  Json.loads lim raw = Raise e ->
  analyze req = ([call req], Raises (on_exception e))
  /\ status_code (on_exception e) = 500%Z
  /\ ((exists msg pos,
         e = JSONDecodeError msg raw pos
         /\ detail (on_exception e)
            = DetailStr (lit "LLM returned invalid JSON: ") (JSONDecodeError msg raw pos))
      \/ (Json.limit_error (int_max_str_digits lim) (recursion_limit lim) raw e
          /\ detail (on_exception e) = DetailStr (lit "Analysis failed: ") e))
  /\ ((Json.count_open raw <= recursion_limit lim)%nat ->
      (int_max_str_digits lim = 0 \/ Json.max_digit_run raw <= int_max_str_digits lim)%nat ->
      exists msg pos,
        e = JSONDecodeError msg raw pos
        /\ analyze req
           = ([call req],
              Raises {| status_code := 500;
                        detail := DetailStr (lit "LLM returned invalid JSON: ")
                                    (JSONDecodeError msg raw pos) |})).
Proof.
  intros Hlog Hmsg Hraw E.
  assert (Ha : analyze req = ([call req], Raises (on_exception e))).
  { rewrite (analyze_crash_reply req text more Hlog Hmsg).
    unfold validate_reply, parse_report. rewrite Hraw. cbn [bind]. rewrite E. reflexivity. }
  split; [exact Ha|]. split; [destruct e; reflexivity|].
  destruct (loads_raises lim raw e E) as [(msg & pos & ->)|Hl].
  - split.
    + left. exists msg, pos. split; reflexivity.
    + intros _ _. exists msg, pos. split; [reflexivity|exact Ha].
  - split.
    + right. split; [exact Hl|]. now rewrite (limit_error_detail _ _ _ _ Hl).
    + intros Hopen Hrun. exfalso.
      destruct Hl as [[_ Hd]|(n & _ & Hx & Hn)]; [lia|].
      unfold Json.exceeds_digit_limit in Hx.
      apply andb_true_iff in Hx as [Hx0 Hx]. apply andb_true_iff in Hx0 as [_ Hx0].
      apply Nat.ltb_lt in Hx, Hx0. lia.
Qed.

(** C6. A document that lacks one of the fields of [AnalysisReport] does
    not become a report: construction raises a validation error whose
    errors name the field as missing, no default is supplied, and the
    request fails with status 500 and that error in its detail. *)
Theorem missing_field_rejected
    (req : AnalyzeRequest) (text raw : pystr) (more : list content_block)
    (data : list (pystr * json)) (name : pystr) :
  In name report_fields -> dict_get name data = None ->
  (exists errs,
      AnalysisReport_init (JObj data)
      = Raise (ValidationError (lit "AnalysisReport") errs)
      /\ In (ErrorDetail "missing" [LocField name]) errs
      /\ (forallb isspace (log_text req) = false ->
          messages_create (call req) = Ok (TextBlock text :: more) ->
          strip_fence text = Ok raw ->
          Json.loads lim raw = Ok (JObj data) ->
          analyze req
          = ([call req],
             Raises {| status_code := 500;
                       detail := DetailStr (lit "Analysis failed: ")
                                   (ValidationError (lit "AnalysisReport") errs) |})))
  /\ forall r, AnalysisReport_init (JObj data) <> Ok r.
Proof.
  intros Hin Hget.
  destruct (validate_report_missing data name Hin Hget)
    as (errs & E & Herr).
  unfold AnalysisReport_init. rewrite E. split; [|discriminate].
  exists errs. split; [reflexivity|]. split; [exact Herr|].
  intros Hlog Hmsg Hraw Hdoc.
  rewrite (analyze_crash_reply req text more Hlog Hmsg).
  unfold validate_reply, parse_report. rewrite Hraw. cbn [bind]. rewrite Hdoc. cbn [bind].
  unfold AnalysisReport_init. rewrite E. reflexivity.
Qed.

Lemma validate_reply_document (d : pystr) (doc : json) (r : AnalysisReport) :
  Json.loads lim d = Ok doc -> report_doc r doc -> validate d = Ok r.
Proof.
  intros Hd Hr. destruct (loads_strip lim d doc Hd) as (Hs & Hb & He).
  unfold validate_reply, strip_fence. rewrite Hb. cbn [bind]. rewrite He. cbn [bind].
  rewrite strip_idem. unfold parse_report. rewrite Hs. cbn [bind].
  now apply report_doc_valid.
Qed.

Lemma validate_reply_fenced (d tag : pystr) (doc : json) (r : AnalysisReport) :
  Json.loads lim d = Ok doc -> report_doc r doc -> ~ In 10%N tag ->
  validate (fenced tag d) = Ok r.
Proof.
  intros Hd Hr Htag. destruct (loads_strip lim d doc Hd) as (Hs & _ & _).
  unfold validate_reply. rewrite (strip_fence_fenced tag d Htag). cbn [bind].
  unfold parse_report. rewrite Hs. cbn [bind]. now apply report_doc_valid.
Qed.

(** C3, amended. A reply that [json.loads] accepts within the limits of
    the interpreter and that is a document of the full shape of
    [AnalysisReport], bare or wrapped in one fence pair, validates into
    the report whose fields are those of the document, and that report is
    what the request returns. *)
Theorem reply_round_trip
    (req : AnalyzeRequest) (d tag text : pystr) (doc : json) (r : AnalysisReport)
    (more : list content_block) :
  Json.loads lim d = Ok doc ->
  report_doc r doc ->
  ~ In 10%N tag ->
  text = d \/ text = fenced tag d ->
  forallb isspace (log_text req) = false ->
  messages_create (call req) = Ok (TextBlock text :: more) ->
  validate d = Ok r
  /\ validate (fenced tag d) = Ok r
  /\ analyze req = ([call req], Returns r).
Proof.
  intros Hd Hr Htag Htext Hlog Hmsg.
  pose proof (validate_reply_document d doc r Hd Hr) as H1.
  pose proof (validate_reply_fenced d tag doc r Hd Hr Htag) as H2.
  split; [exact H1|]. split; [exact H2|].
  rewrite (analyze_crash_reply req text more Hlog Hmsg).
  destruct Htext as [->| ->]; [now rewrite H1 | now rewrite H2].
Qed.

End Endpoint.

(** ** The theorems at the sample inputs *)

Lemma blank_log_rejected_witness :
  analyze_crash sample_limits [] (reply_with (lit "{}")) (crash_request "   ")
  = ([], Raises {| status_code := 400; detail := Detail (lit "log_text cannot be empty") |}).
Proof.
  apply (blank_log_rejected sample_limits [] (reply_with (lit "{}")) (crash_request "   ")).
  reflexivity.
Defined.

Lemma fence_without_newline_witness :
  strip_fence (lit "```") = Raise (IndexError (lit "list index out of range"))
  /\ analyze_crash sample_limits [] (reply_with (lit "```")) (crash_request "kernel BUG at mm/slab.c:123")
     = ([completion_call [] (crash_request "kernel BUG at mm/slab.c:123")],
        Raises {| status_code := 500;
                  detail := DetailStr (lit "Analysis failed: ")
                              (IndexError (lit "list index out of range")) |})
  /\ forall e, snd (analyze_crash sample_limits [] (reply_with (lit "```"))
                      (crash_request "kernel BUG at mm/slab.c:123"))
               <> Raises {| status_code := 500;
                            detail := DetailStr (lit "LLM returned invalid JSON: ") e |}.
Proof.
  apply (fence_without_newline sample_limits [] (reply_with (lit "```"))
           (crash_request "kernel BUG at mm/slab.c:123") (lit "```") []).
  - reflexivity.
  - simpl. intros H. repeat destruct H as [H|H]; try discriminate H. exact H.
  - reflexivity.
  - reflexivity.
Defined.

Lemma malformed_reply_classified_witness :
  analyze_crash sample_limits [] (reply_with (lit "not json at all"))
    (crash_request "kernel BUG at mm/slab.c:123")
  = ([completion_call [] (crash_request "kernel BUG at mm/slab.c:123")],
     Raises (on_exception
               (JSONDecodeError (lit "Expecting value") (lit "not json at all") 0)))
  /\ status_code (on_exception
                    (JSONDecodeError (lit "Expecting value") (lit "not json at all") 0))
     = 500%Z
  /\ ((exists msg pos,
         JSONDecodeError (lit "Expecting value") (lit "not json at all") 0
         = JSONDecodeError msg (lit "not json at all") pos
         /\ detail (on_exception
                      (JSONDecodeError (lit "Expecting value") (lit "not json at all") 0))
            = DetailStr (lit "LLM returned invalid JSON: ")
                (JSONDecodeError msg (lit "not json at all") pos))
      \/ (Json.limit_error (int_max_str_digits sample_limits) (recursion_limit sample_limits)
            (lit "not json at all")
            (JSONDecodeError (lit "Expecting value") (lit "not json at all") 0)
          /\ detail (on_exception
                       (JSONDecodeError (lit "Expecting value") (lit "not json at all") 0))
             = DetailStr (lit "Analysis failed: ")
                 (JSONDecodeError (lit "Expecting value") (lit "not json at all") 0)))
  /\ ((Json.count_open (lit "not json at all") <= recursion_limit sample_limits)%nat ->
      (int_max_str_digits sample_limits = 0
       \/ Json.max_digit_run (lit "not json at all") <= int_max_str_digits sample_limits)%nat ->
      exists msg pos,
        JSONDecodeError (lit "Expecting value") (lit "not json at all") 0
        = JSONDecodeError msg (lit "not json at all") pos
        /\ analyze_crash sample_limits [] (reply_with (lit "not json at all"))
             (crash_request "kernel BUG at mm/slab.c:123")
           = ([completion_call [] (crash_request "kernel BUG at mm/slab.c:123")],
              Raises {| status_code := 500;
                        detail := DetailStr (lit "LLM returned invalid JSON: ")
                                    (JSONDecodeError msg (lit "not json at all") pos) |})).
Proof.
  apply (malformed_reply_classified sample_limits [] (reply_with (lit "not json at all"))
           (crash_request "kernel BUG at mm/slab.c:123")
           (lit "not json at all") (lit "not json at all") []
           (JSONDecodeError (lit "Expecting value") (lit "not json at all") 0)).
  - reflexivity.
  - reflexivity.
  - reflexivity.
  - vm_compute. reflexivity.
Defined.

(** C5 as stated fails. A reply of 1100 opening brackets is not a JSON
    document, as the decoder says when it has room for the recursion; with
    less room [json.loads] raises [RecursionError] and the detail is that
    of the other failures. [NaN] is not a JSON document either, but
    [json.loads] accepts it, and the request fails on the construction of
    the report. *)
Lemma malformed_reply_other_failure :
  Json.loads deep_limits deep_text
  = Raise (JSONDecodeError (lit "Expecting value") deep_text 1100)
  /\ analyze_crash sample_limits [] (reply_with deep_text)
       (crash_request "kernel BUG at mm/slab.c:123")
     = ([completion_call [] (crash_request "kernel BUG at mm/slab.c:123")],
        Raises {| status_code := 500;
                  detail := DetailStr (lit "Analysis failed: ") Json.array_too_deep |})
  /\ Json.loads sample_limits (lit "NaN") = Ok (JFloat NaN)
  /\ analyze_crash sample_limits [] (reply_with (lit "NaN"))
       (crash_request "kernel BUG at mm/slab.c:123")
     = ([completion_call [] (crash_request "kernel BUG at mm/slab.c:123")],
        Raises {| status_code := 500;
                  detail := DetailStr (lit "Analysis failed: ") TypeError |}).
Proof.
  split; [vm_compute; reflexivity|]. split; [vm_compute; reflexivity|].
  split; vm_compute; reflexivity.
Qed.

Lemma sample_report_doc : report_doc (sample_report 85) (JObj (sample_data (JInt 85))).
Proof.
  exists (sample_data (JInt 85)), [JObj sample_issue], [JObj sample_frame].
  repeat split; try reflexivity.
  - constructor; [|constructor]. exists sample_issue. repeat split; reflexivity.
  - constructor; [|constructor]. exists sample_frame. repeat split; reflexivity.
Defined.

Lemma reply_round_trip_witness :
  validate_reply sample_limits sample_text = Ok (sample_report 85)
  /\ validate_reply sample_limits (fenced (lit "json") sample_text) = Ok (sample_report 85)
  /\ analyze_crash sample_limits [] (reply_with (fenced (lit "json") sample_text))
       (crash_request "kernel BUG at mm/slab.c:123")
     = ([completion_call [] (crash_request "kernel BUG at mm/slab.c:123")],
        Returns (sample_report 85)).
Proof.
  apply (reply_round_trip sample_limits [] (reply_with (fenced (lit "json") sample_text))
           (crash_request "kernel BUG at mm/slab.c:123")
           sample_text (lit "json") (fenced (lit "json") sample_text)
           (JObj (sample_data (JInt 85))) (sample_report 85) []).
  - vm_compute. reflexivity.
  - exact sample_report_doc.
  - simpl. intros H. repeat destruct H as [H|H]; try discriminate H. exact H.
  - right. reflexivity.
  - reflexivity.
  - reflexivity.
Defined.

Lemma sample_report_doc_of (n : Z) :
  report_doc (sample_report n) (JObj (sample_data (JInt n))).
Proof.
  exists (sample_data (JInt n)), [JObj sample_issue], [JObj sample_frame].
  repeat split; try reflexivity.
  - constructor; [|constructor]. exists sample_issue. repeat split; reflexivity.
  - constructor; [|constructor]. exists sample_frame. repeat split; reflexivity.
Qed.

(** C3 as stated fails. The sample reply with a confidence of 4301 digits
    is a JSON document of the full shape, which an interpreter without a
    limit on the digits of an integer decodes; with the default limit of
    4300 digits [json.loads] raises [ValueError] and the request fails
    with status 500. *)
Lemma reply_round_trip_digit_limit :
  Json.loads without_digit_limit (sample_text_with long_numeral)
  = Ok (JObj (sample_data (JInt long_number)))
  /\ report_doc (sample_report long_number) (JObj (sample_data (JInt long_number)))
  /\ analyze_crash without_digit_limit [] (reply_with (sample_text_with long_numeral))
       (crash_request "kernel BUG at mm/slab.c:123")
     = ([completion_call [] (crash_request "kernel BUG at mm/slab.c:123")],
        Returns (sample_report long_number))
  /\ analyze_crash sample_limits [] (reply_with (sample_text_with long_numeral))
       (crash_request "kernel BUG at mm/slab.c:123")
     = ([completion_call [] (crash_request "kernel BUG at mm/slab.c:123")],
        Raises {| status_code := 500;
                  detail := DetailStr (lit "Analysis failed: ")
                              (ValueError (Json.digit_limit_message 4300 4301)) |}).
Proof.
  split; [vm_compute; reflexivity|]. split; [apply sample_report_doc_of|].
  split; vm_compute; reflexivity.
Qed.



Lemma missing_field_rejected_witness :
  (exists errs,
      AnalysisReport_init (JObj sample_without_confidence)
      = Raise (ValidationError (lit "AnalysisReport") errs)
      /\ In (ErrorDetail "missing" [LocField (lit "confidence")]) errs
      /\ (forallb isspace (log_text (crash_request "kernel BUG at mm/slab.c:123")) = false ->
          reply_with sample_text_without_confidence (completion_call [] (crash_request "kernel BUG at mm/slab.c:123"))
          = Ok [TextBlock sample_text_without_confidence] ->
          strip_fence sample_text_without_confidence = Ok (strip sample_text_without_confidence) ->
          Json.loads sample_limits (strip sample_text_without_confidence) = Ok (JObj sample_without_confidence) ->
          analyze_crash sample_limits [] (reply_with sample_text_without_confidence)
            (crash_request "kernel BUG at mm/slab.c:123")
          = ([completion_call [] (crash_request "kernel BUG at mm/slab.c:123")],
             Raises {| status_code := 500;
                       detail := DetailStr (lit "Analysis failed: ")
                                   (ValidationError (lit "AnalysisReport") errs) |})))
  /\ forall r, AnalysisReport_init (JObj sample_without_confidence) <> Ok r.
Proof.
  apply (missing_field_rejected sample_limits [] (reply_with sample_text_without_confidence)
           (crash_request "kernel BUG at mm/slab.c:123") sample_text_without_confidence
           (strip sample_text_without_confidence) []
           sample_without_confidence (lit "confidence")).
  - unfold report_fields. simpl. tauto.
  - reflexivity.
Defined.

Lemma enum_fields_pass_through_witness :
  AnalysisReport_init
    (JObj (dict_set (lit "crash_type") (JStr (lit "Meltdown"))
             (dict_set (lit "severity") (JStr (lit "catastrophic")) (sample_data (JInt 85)))))
  = Ok (with_enums (lit "Meltdown") (lit "catastrophic") (sample_report 85)).
Proof.
  apply (enum_fields_pass_through (sample_data (JInt 85)) (sample_report 85)
           (lit "Meltdown") (lit "catastrophic")).
  reflexivity.
Defined.

Lemma unknown_fields_ignored_witness :
  AnalysisReport_init
    (JObj (dict_update (sample_data (JInt 85))
             [(lit "model", JStr (lit "x")); (lit "notes", JArr [])]))
  = Ok (sample_report 85).
Proof.
  apply (unknown_fields_ignored (sample_data (JInt 85))
           [(lit "model", JStr (lit "x")); (lit "notes", JArr [])] (sample_report 85)).
  - reflexivity.
  - intros key Hk Hf. simpl in Hk. unfold report_fields in Hf. simpl in Hf.
    destruct Hk as [<-|[<-|[]]];
      repeat (destruct Hf as [Hf|Hf]; [discriminate Hf|]); exact Hf.
Defined.

(** * Further properties

    Failures of the client and of the reply that the handler turns into
    status 500, fence markers that are not an enclosing pair, the nested
    models, and what the prompt builder leaves undelimited. *)

(** ** The endpoint *)

Section EndpointFailures.

Variable lim : limits.
Variable SYSTEM_PROMPT : pystr.
Variable messages_create : create_call -> res (list content_block).

Local Abbreviation analyze :=
  (analyze_crash lim SYSTEM_PROMPT messages_create).
Local Abbreviation validate := (validate_reply lim).
Local Abbreviation call := (completion_call SYSTEM_PROMPT).

Lemma analyze_crash_not_blank (req : AnalyzeRequest) :
  forallb isspace (log_text req) = false ->
  analyze req
  = ([call req],
     match (content <- messages_create (call req) ;;
            block <- index content 0 ;;
            text <- block_text block ;;
            validate text) with
     | Ok report => Returns report
     | Raise e => Raises (on_exception e)
     end).
Proof.
  intros Hlog. unfold analyze_crash.
  destruct (strip (log_text req)) as [|c s] eqn:E.
  - apply strip_nil_all_space in E. congruence.
  - reflexivity.
Qed.

Lemma on_exception_status (e : exn) : status_code (on_exception e) = 500%Z.
Proof. destruct e; reflexivity. Qed.

(** X1. When the completion client raises, the request fails with status
    500 after that single call; the detail is [Analysis failed:] followed
    by the error, unless the error is a [JSONDecodeError], which the first
    handler takes. *)
Theorem provider_failure_classified (req : AnalyzeRequest) (e : exn) :
  forallb isspace (log_text req) = false ->
  messages_create (call req) = Raise e ->
  analyze req = ([call req], Raises (on_exception e))
  /\ status_code (on_exception e) = 500%Z
  /\ ((forall msg doc pos, e <> JSONDecodeError msg doc pos) ->
      detail (on_exception e) = DetailStr (lit "Analysis failed: ") e)
  /\ (forall msg doc pos, e = JSONDecodeError msg doc pos ->
      detail (on_exception e) = DetailStr (lit "LLM returned invalid JSON: ") e).
Proof.
  intros Hlog Hmsg. split; [|split; [|split]].
  - rewrite (analyze_crash_not_blank req Hlog), Hmsg. reflexivity.
  - apply on_exception_status.
  - intros Hne. destruct e; try reflexivity. exfalso. exact (Hne _ _ _ eq_refl).
  - intros msg doc pos ->. reflexivity.
Qed.

(** X2. A message without content makes [content[0]] raise [IndexError]:
    the request fails with status 500 and the detail
    [Analysis failed: list index out of range]. *)
Theorem empty_content_index_error (req : AnalyzeRequest) :
  forallb isspace (log_text req) = false ->
  messages_create (call req) = Ok [] ->
  analyze req
  = ([call req],
     Raises {| status_code := 500;
               detail := DetailStr (lit "Analysis failed: ")
                           (IndexError (lit "list index out of range")) |}).
Proof.
  intros Hlog Hmsg. rewrite (analyze_crash_not_blank req Hlog), Hmsg. reflexivity.
Qed.

(** X3. The client is called at most once, never for a blank log and
    exactly once otherwise, with the arguments built from the request; a
    failure has status 400 exactly when no call was made, and status 500
    otherwise. *)
Theorem analyze_crash_calls_and_status (req : AnalyzeRequest) :
  (fst (analyze req) = [] <-> forallb isspace (log_text req) = true)
  /\ (fst (analyze req) = [call req] <-> forallb isspace (log_text req) = false)
  /\ (forall e, snd (analyze req) = Raises e ->
        (status_code e = 400%Z /\ fst (analyze req) = [])
        \/ (status_code e = 500%Z /\ fst (analyze req) = [call req]))
  /\ (forall r, snd (analyze req) = Returns r -> fst (analyze req) = [call req]).
Proof.
  destruct (forallb isspace (log_text req)) eqn:Hlog.
  - assert (E : analyze req
      = ([], Raises {| status_code := 400;
                       detail := Detail (lit "log_text cannot be empty") |})).
    { unfold analyze_crash. now rewrite (strip_all_space _ Hlog). }
    rewrite E. cbn [fst snd]. repeat split; try discriminate; auto.
    intros e H. injection H as <-. left. split; reflexivity.
  - rewrite (analyze_crash_not_blank req Hlog). cbn [fst snd].
    repeat split; try discriminate; auto.
    intros e H. right. split; [|reflexivity].
    destruct (content <- messages_create (call req) ;; _); [discriminate|].
    injection H as <-. apply on_exception_status.
Qed.

(** X4. A reply that is a JSON document but not an object (an array, a
    string, a number, a constant) cannot be unpacked into keyword
    arguments: the request fails with status 500 under [Analysis failed:],
    not as a malformed reply. *)
Theorem non_object_reply_type_error
    (req : AnalyzeRequest) (text raw : pystr) (v : json) (more : list content_block) :
  forallb isspace (log_text req) = false ->
  messages_create (call req) = Ok (TextBlock text :: more) ->
  strip_fence text = Ok raw ->
  Json.loads lim raw = Ok v ->
  (forall data, v <> JObj data) ->
  analyze req
  = ([call req],
     Raises {| status_code := 500; detail := DetailStr (lit "Analysis failed: ") TypeError |}).
Proof.
  intros Hlog Hmsg Hraw Hv Hobj.
  rewrite (analyze_crash_not_blank req Hlog), Hmsg. cbn [index nth_error bind block_text].
  unfold validate_reply, parse_report. rewrite Hraw. cbn [bind]. rewrite Hv. cbn [bind].
  destruct v; try reflexivity. exfalso. exact (Hobj _ eq_refl).
Qed.

(** X5. A report is returned only for a reply that went through every
    step: the log is not blank, the client returned a first text block,
    its stripped text is a JSON object, and each of the ten fields is in
    it and validates to the field of the report. *)
Theorem returned_report_sound (req : AnalyzeRequest) (r : AnalysisReport) :
  snd (analyze req) = Returns r ->
  forallb isspace (log_text req) = false
  /\ exists text more raw data,
       messages_create (call req) = Ok (TextBlock text :: more)
       /\ strip_fence text = Ok raw
       /\ Json.loads lim raw = Ok (JObj data)
       /\ validate_AnalysisReport data = Valid r
       /\ forall name, In name report_fields -> dict_get name data <> None.
Proof.
  intros H.
  destruct (forallb isspace (log_text req)) eqn:Hlog.
  { unfold analyze_crash in H. rewrite (strip_all_space _ Hlog) in H. discriminate H. }
  split; [reflexivity|].
  rewrite (analyze_crash_not_blank req Hlog) in H. cbn [snd] in H.
  destruct (messages_create (call req)) as [content|e] eqn:Hmsg; [|discriminate H].
  destruct content as [|[text|] more]; try discriminate H.
  cbn [bind index nth_error block_text] in H.
  unfold validate_reply, parse_report in H.
  destruct (strip_fence text) as [raw|e] eqn:Hraw; [|discriminate H].
  cbn [bind] in H.
  destruct (Json.loads lim raw) as [v|e] eqn:Hv; [|discriminate H].
  cbn [bind] in H. unfold AnalysisReport_init in H.
  destruct v as [| | | | | |data]; try discriminate H.
  destruct (validate_AnalysisReport data) as [r'|errs] eqn:Hr;
    [|discriminate H].
  injection H as <-.
  exists text, more, raw, data.
  split; [reflexivity|]. split; [exact Hraw|]. split; [exact Hv|].
  split; [exact Hr|].
  intros name Hname Hnone.
  destruct (validate_report_missing data name Hname Hnone)
    as (errs & E & _).
  congruence.
Qed.

End EndpointFailures.

(** ** Fence markers *)

Lemma partition_startswith (sep s : pystr) :
  startswith s sep = true -> partition sep s = Some ([], skipn (List.length sep) s).
Proof. intros H. destruct s; simpl; now rewrite H. Qed.

Lemma partition_char_some (c : N) (s : pystr) :
  In c s -> exists a b, partition [c] s = Some (a, b).
Proof.
  induction s as [|x s IH]; intros H; [contradiction|].
  simpl. destruct (N.eqb_spec c x) as [->|Hne].
  - simpl. eauto.
  - simpl. destruct H as [H|H]; [congruence|].
    destruct (IH H) as (a & b & E).
    change (exists a0 b0, match partition [c] s with
                          | Some (a1, b1) => Some (x :: a1, b1) | None => None end
                          = Some (a0, b0)).
    rewrite E. eauto.
Qed.

(** X6. The stripping step fails in one way only: it raises [IndexError]
    exactly when the trimmed text begins with a fence marker and holds no
    newline. *)
Theorem strip_fence_raises_iff (text : pystr) (e : exn) :
  strip_fence text = Raise e <->
  startswith (strip text) fence = true
  /\ ~ In 10%N (strip text)
  /\ e = IndexError (lit "list index out of range").
Proof.
  split.
  - unfold strip_fence.
    assert (Hclose : forall r1 : pystr,
      (raw <- (if endswith r1 fence then index (rsplit1 fence r1) 0 else Ok r1) ;;
       Ok (strip raw)) <> Raise e).
    { intros r1. destruct (endswith r1 fence) eqn:E; [|discriminate].
      unfold rsplit1. unfold endswith in E. rewrite (partition_startswith _ _ E).
      discriminate. }
    destruct (startswith (strip text) fence) eqn:Hs.
    + destruct (in_dec N.eq_dec 10%N (strip text)) as [Hin|Hnot].
      * destruct (partition_char_some 10 (strip text) Hin) as (a & b & E).
        unfold split1. rewrite E. cbn [index nth_error bind].
        intros H. exfalso. exact (Hclose b H).
      * unfold split1. rewrite (partition_char_none 10 (strip text) Hnot).
        cbn [index nth_error bind]. intros H. injection H as <-. auto.
    + cbn [bind]. intros H. exfalso. exact (Hclose (strip text) H).
  - intros (Hs & Hn & ->). now apply strip_fence_index_error.
Qed.

Lemma lstrip_head (s : pystr) (c : N) (t : pystr) :
  lstrip s = c :: t -> isspace c = false.
Proof.
  induction s as [|x s IH]; simpl; [discriminate|].
  destruct (isspace x) eqn:E; [exact IH|]. intros H. injection H as <- _. exact E.
Qed.

Lemma rstrip_last (s t : pystr) (c : N) :
  rstrip s = t ++ [c] -> isspace c = false.
Proof.
  unfold rstrip. intros H.
  assert (E : lstrip (rev s) = c :: rev t).
  { rewrite <- (rev_involutive (lstrip (rev s))), H, rev_app_distr. reflexivity. }
  exact (lstrip_head _ _ _ E).
Qed.

(** X7. Text that comes out of the stripping step has no whitespace at
    either end: it is its own [strip], its first character is not
    whitespace, and neither is its last. *)
Theorem strip_fence_output_trimmed (text out : pystr) :
  strip_fence text = Ok out ->
  strip out = out
  /\ (forall c t, out = c :: t -> isspace c = false)
  /\ (forall t c, out = t ++ [c] -> isspace c = false).
Proof.
  intros H. pose proof (strip_fence_trimmed text out H) as E.
  split; [exact E|]. split.
  - intros c t Hout. apply (lstrip_head (rstrip out) c t).
    fold (strip out). now rewrite E.
  - intros t c Hout. apply (rstrip_last (lstrip out) t c).
    rewrite <- lstrip_rstrip_comm. fold (strip out). now rewrite E.
Qed.

Lemma lstrip_space_app (w s : pystr) :
  forallb isspace w = true -> lstrip (w ++ s) = lstrip s.
Proof.
  induction w as [|c w IH]; intros H; [reflexivity|].
  simpl in *. apply andb_true_iff in H as [-> H]. auto.
Qed.

Lemma strip_space_around (w1 w2 s : pystr) :
  forallb isspace w1 = true -> forallb isspace w2 = true ->
  strip (w1 ++ s ++ w2) = strip s.
Proof.
  intros H1 H2. rewrite app_assoc, (strip_app_space _ _ H2).
  unfold strip. rewrite !lstrip_rstrip_comm. now rewrite (lstrip_space_app _ _ H1).
Qed.

Section ReplyWhitespace.

Variable lim : limits.

(** X8. Whitespace around the reply does not matter: with any run of
    whitespace before and after it, a reply strips to the same text, or
    fails the same way, and validates to the same result. *)
Theorem reply_whitespace_irrelevant (w1 w2 text : pystr) :
  forallb isspace w1 = true -> forallb isspace w2 = true ->
  strip_fence (w1 ++ text ++ w2) = strip_fence text
  /\ validate_reply lim (w1 ++ text ++ w2)
     = validate_reply lim text.
Proof.
  intros H1 H2.
  assert (E : strip_fence (w1 ++ text ++ w2) = strip_fence text).
  { unfold strip_fence. now rewrite (strip_space_around w1 w2 text H1 H2). }
  split; [exact E|]. unfold validate_reply. now rewrite E.
Qed.

End ReplyWhitespace.

Lemma rstrip_app_keep (a b : pystr) :
  rstrip b <> [] -> rstrip (a ++ b) = a ++ rstrip b.
Proof.
  intros Hb. induction a as [|x a IH]; [reflexivity|].
  simpl. rewrite rstrip_cons, IH.
  destruct (a ++ rstrip b) eqn:E; [|reflexivity].
  apply app_eq_nil in E as [_ E]. contradiction.
Qed.

Lemma lstrip_app_keep (a b : pystr) :
  lstrip a <> [] -> lstrip (a ++ b) = lstrip a ++ b.
Proof.
  induction a as [|x a IH]; intros Ha; [contradiction|].
  simpl in *. destruct (isspace x); [now apply IH | reflexivity].
Qed.

Lemma strip_lstrip (s : pystr) : strip (lstrip s) = strip s.
Proof. unfold strip. now rewrite !lstrip_rstrip_comm, lstrip_idem. Qed.

Lemma strip_rstrip (s : pystr) : strip (rstrip s) = strip s.
Proof. unfold strip. now rewrite rstrip_idem. Qed.

(** X9. An opening fence line without a closing marker: the first line
    goes, with its language tag, and the rest is returned trimmed. *)
Theorem opening_fence_only (tag inner : pystr) :
  ~ In 10%N tag ->
  rstrip inner <> [] ->
  endswith (rstrip inner) fence = false ->
  strip_fence (fence ++ tag ++ [10%N] ++ inner) = Ok (strip inner).
Proof.
  intros Htag Hne Hend. unfold strip_fence.
  assert (Hstrip : strip (fence ++ tag ++ [10%N] ++ inner)
                   = fence ++ tag ++ [10%N] ++ rstrip inner).
  { unfold strip.
    rewrite !app_assoc, (rstrip_app_keep _ inner Hne), <- !app_assoc.
    reflexivity. }
  rewrite Hstrip, startswith_app.
  assert (Hsplit : split1 [10%N] (fence ++ tag ++ [10%N] ++ rstrip inner)
                   = [fence ++ tag; rstrip inner]).
  { unfold split1. rewrite app_assoc.
    change ([10%N] ++ rstrip inner) with (10%N :: rstrip inner).
    rewrite partition_char; [reflexivity|].
    intros Hin. apply in_app_or in Hin as [Hin|Hin]; [|contradiction].
    simpl in Hin. intuition discriminate. }
  rewrite Hsplit. unfold index. cbn [nth_error bind]. rewrite Hend. cbn [bind].
  now rewrite strip_rstrip.
Qed.

(** X10. A closing fence marker without an opening line: the marker goes
    and what is before it is returned trimmed. *)
Theorem closing_fence_only (inner : pystr) :
  startswith (strip (inner ++ fence)) fence = false ->
  strip_fence (inner ++ fence) = Ok (strip inner).
Proof.
  intros Hstart. unfold strip_fence.
  assert (Hr : rstrip (inner ++ fence) = inner ++ fence).
  { change fence with ([96; 96]%N ++ [96%N]). rewrite app_assoc.
    now rewrite rstrip_snoc. }
  destruct (lstrip inner) as [|c l] eqn:El.
  - exfalso. unfold strip in Hstart. rewrite Hr in Hstart.
    assert (Hsp : forallb isspace inner = true).
    { clear - El. induction inner as [|x s IH]; [reflexivity|].
      simpl in *. destruct (isspace x); [auto|discriminate]. }
    rewrite (lstrip_space_app inner fence Hsp) in Hstart. discriminate Hstart.
  - assert (Hstrip : strip (inner ++ fence) = lstrip inner ++ fence).
    { unfold strip. rewrite Hr. apply lstrip_app_keep. rewrite El. discriminate. }
    rewrite Hstrip in *. rewrite Hstart. cbn [bind].
    rewrite endswith_app, rsplit1_suffix. unfold index. cbn [nth_error bind].
    now rewrite strip_lstrip.
Qed.

(** X11. The closing marker need not be on a line of its own: whatever
    stands between the first newline and a closing marker at the very end
    is returned trimmed, and the whole first line is dropped whatever it
    holds after the opening marker. *)
Theorem fence_pair_any_layout (tag body : pystr) :
  ~ In 10%N tag ->
  strip_fence (fence ++ tag ++ [10%N] ++ body ++ fence) = Ok (strip body).
Proof.
  intros Htag. unfold strip_fence.
  assert (Hfix : strip (fence ++ tag ++ [10%N] ++ body ++ fence)
                 = fence ++ tag ++ [10%N] ++ body ++ fence).
  { unfold fence.
    change (lit "```") with ([96; 96; 96]%N).
    change ([96; 96; 96]%N ++ tag ++ [10%N] ++ body ++ [96; 96; 96]%N)
      with (96%N :: ([96; 96]%N ++ tag ++ [10%N] ++ body ++ [96; 96; 96]%N)).
    replace ([96; 96]%N ++ tag ++ [10%N] ++ body ++ [96; 96; 96]%N)
      with (([96; 96]%N ++ tag ++ [10%N] ++ body ++ [96; 96]%N) ++ [96%N]).
    - apply strip_fixed; reflexivity.
    - repeat rewrite <- app_assoc. reflexivity. }
  rewrite Hfix, startswith_app.
  assert (Hsplit : split1 [10%N] (fence ++ tag ++ [10%N] ++ body ++ fence)
                   = [fence ++ tag; body ++ fence]).
  { unfold split1. rewrite app_assoc.
    change ([10%N] ++ body ++ fence) with (10%N :: body ++ fence).
    rewrite partition_char; [reflexivity|].
    intros Hin. apply in_app_or in Hin as [Hin|Hin]; [|contradiction].
    simpl in Hin. intuition discriminate. }
  rewrite Hsplit. unfold index. cbn [nth_error bind].
  rewrite endswith_app, rsplit1_suffix. cbn [nth_error bind]. reflexivity.
Qed.

(** ** The models *)

Lemma validate_issue_doc_opt (loc : list loc_item) (i : RelatedIssue) (v : json) :
  issue_doc_opt i v -> validate_RelatedIssue loc v = Valid i.
Proof.
  intros (data & -> & H1 & H2 & [H3|[H3 Hu]]);
    unfold validate_RelatedIssue, required, optional; rewrite H1, H2, H3.
  - now destruct i.
  - destruct i as [a b u]. simpl in *. now subst u.
Qed.

Lemma validate_items_str_invalid (loc : list loc_item) (items : list json)
    (i : nat) (v : json) :
  nth_error items i = Some v ->
  (forall s, v <> JStr s) ->
  forall k, exists errs,
    validate_items validate_str loc k items = Invalid errs
    /\ In (ErrorDetail "string_type" (loc ++ [LocIndex (k + i)])) errs.
Proof.
  revert i. induction items as [|x items IH]; intros i Hnth Hv k.
  - destruct i; discriminate Hnth.
  - destruct i as [|i]; simpl in Hnth.
    + injection Hnth as ->. rewrite Nat.add_0_r. cbn [validate_items].
      apply vap_invalid_l. apply vap_invalid_r.
      exists [ErrorDetail "string_type" (loc ++ [LocIndex k])]. split; [|now left].
      destruct v; try reflexivity. exfalso. exact (Hv _ eq_refl).
    + cbn [validate_items]. apply vap_invalid_r.
      replace (k + S i)%nat with (S k + i)%nat by lia. now apply IH.
Qed.

Section ModelFacts.

Local Abbreviation validate_report := validate_AnalysisReport.
Local Abbreviation init := AnalysisReport_init.

(** X12. The [url] of a related issue is optional and defaults to [#]:
    in a document whose other fields are valid, related issues written
    with or without a [url] validate, each one to its [id], its [title]
    and the [url] it gives or the default. *)
Theorem related_issue_url_default
    (data : list (pystr * json)) (r : AnalysisReport)
    (issues : list RelatedIssue) (docs : list json) :
  init (JObj data) = Ok r ->
  Forall2 issue_doc_opt issues docs ->
  init (JObj (dict_set (lit "related_issues") (JArr docs) data))
  = Ok (with_related_issues issues r).
Proof.
  intros H Hdocs. unfold AnalysisReport_init in *.
  destruct (validate_report data) as [r'|] eqn:E; [|discriminate].
  injection H as ->. apply validate_report_valid in E.
  destruct E as (H1 & H2 & H3 & H4 & H5 & H6 & H7 & H8 & H9 & H10).
  unfold validate_AnalysisReport.
  rewrite required_set_same.
  repeat rewrite required_set_other by (cbv; discriminate).
  rewrite H1, H2, H3, H4, H5, H6, H7, H8, H10.
  cbn [validate_list].
  rewrite (validate_items_docs validate_RelatedIssue issue_doc_opt _ _ _
             validate_issue_doc_opt Hdocs).
  reflexivity.
Qed.

(** X13. Validation does not stop at the first error: when construction
    fails, every field that the document lacks is named as missing in the
    errors of that one failure. *)
Theorem all_missing_fields_reported
    (data : list (pystr * json)) (title : pystr) (errs : list error_detail) :
  init (JObj data) = Raise (ValidationError title errs) ->
  forall name, In name report_fields -> dict_get name data = None ->
  In (ErrorDetail "missing" [LocField name]) errs.
Proof.
  intros H name Hname Hnone.
  destruct (validate_report_missing data name Hname Hnone)
    as (errs' & E & Hin).
  unfold AnalysisReport_init in H. rewrite E in H. injection H as _ <-. exact Hin.
Qed.

(** X14. A list field is valid only when each of its elements is: a
    document whose [suggested_fixes] array has an element that is not a
    string fails validation, with an error at the index of that element,
    whatever its other fields. *)
Theorem list_element_rejected
    (data : list (pystr * json)) (items : list json) (i : nat) (v : json) :
  dict_get (lit "suggested_fixes") data = Some (JArr items) ->
  nth_error items i = Some v ->
  (forall s, v <> JStr s) ->
  exists errs,
    init (JObj data) = Raise (ValidationError (lit "AnalysisReport") errs)
    /\ In (ErrorDetail "string_type" [LocField (lit "suggested_fixes"); LocIndex i]) errs.
Proof.
  intros Hget Hnth Hv.
  destruct (validate_items_str_invalid [LocField (lit "suggested_fixes")] items i v Hnth Hv 0)
    as (errs0 & E0 & Hin0).
  assert (G : exists errs,
    validate_report data = Invalid errs
    /\ In (ErrorDetail "string_type" [LocField (lit "suggested_fixes"); LocIndex i]) errs).
  { unfold validate_AnalysisReport.
    apply vap_invalid_l. apply vap_invalid_l. apply vap_invalid_r.
    unfold required. rewrite Hget. cbn [validate_list app].
    exists errs0. split; [exact E0|exact Hin0]. }
  destruct G as (errs & E & Hin). exists errs.
  unfold AnalysisReport_init. rewrite E. split; [reflexivity|exact Hin].
Qed.

End ModelFacts.

Lemma validate_items_invalid {A} (item : validator A) (loc : list loc_item)
    (items : list json) (i : nat) (v : json) (ty : string) (suffix : list loc_item) :
  nth_error items i = Some v ->
  (forall loc', exists errs,
      item loc' v = Invalid errs /\ In (ErrorDetail ty (loc' ++ suffix)) errs) ->
  forall k, exists errs,
    validate_items item loc k items = Invalid errs
    /\ In (ErrorDetail ty ((loc ++ [LocIndex (k + i)]) ++ suffix)) errs.
Proof.
  revert i. induction items as [|x items IH]; intros i Hnth Hv k.
  - destruct i; discriminate Hnth.
  - destruct i as [|i]; simpl in Hnth.
    + injection Hnth as ->. rewrite Nat.add_0_r. cbn [validate_items].
      apply vap_invalid_l. apply vap_invalid_r. apply Hv.
    + cbn [validate_items]. apply vap_invalid_r.
      replace (k + S i)%nat with (S k + i)%nat by lia. now apply IH.
Qed.

Section NestedModels.

Local Abbreviation init := AnalysisReport_init.

(** X15. The [id] and the [title] of a related issue are required: a
    document with a related issue that lacks one of them fails validation,
    and the error names the field of that issue, by its index, as
    missing. *)
Theorem related_issue_field_required
    (data : list (pystr * json)) (items : list json) (i : nat)
    (issue : list (pystr * json)) (name : string) :
  dict_get (lit "related_issues") data = Some (JArr items) ->
  nth_error items i = Some (JObj issue) ->
  name = "id"%string \/ name = "title"%string ->
  dict_get (lit name) issue = None ->
  exists errs,
    init (JObj data) = Raise (ValidationError (lit "AnalysisReport") errs)
    /\ In (ErrorDetail "missing"
             [LocField (lit "related_issues"); LocIndex i; LocField (lit name)]) errs.
Proof.
  intros Hget Hnth Hname Hnone.
  assert (Hitem : forall loc', exists errs,
    validate_RelatedIssue loc' (JObj issue) = Invalid errs
    /\ In (ErrorDetail "missing" (loc' ++ [LocField (lit name)])) errs).
  { intros loc'. unfold validate_RelatedIssue.
    destruct Hname as [-> | ->].
    - apply vap_invalid_l. apply vap_invalid_l. apply vap_invalid_r.
      now apply required_missing.
    - apply vap_invalid_l. apply vap_invalid_r. now apply required_missing. }
  destruct (validate_items_invalid validate_RelatedIssue [LocField (lit "related_issues")]
              items i (JObj issue) "missing" [LocField (lit name)] Hnth Hitem 0)
    as (errs0 & E0 & Hin0).
  assert (G : exists errs,
    validate_AnalysisReport data = Invalid errs
    /\ In (ErrorDetail "missing"
             [LocField (lit "related_issues"); LocIndex i; LocField (lit name)]) errs).
  { unfold validate_AnalysisReport. apply vap_invalid_l. apply vap_invalid_r.
    unfold required. rewrite Hget. cbn [validate_list app].
    exists errs0. split; [exact E0|exact Hin0]. }
  destruct G as (errs & E & Hin). exists errs.
  unfold AnalysisReport_init. rewrite E. split; [reflexivity|exact Hin].
Qed.

(** X16. Both fields of a trace frame are required: a document with a
    frame that lacks its [func] or its [note] fails validation, and the
    error names the field of that frame, by its index, as missing. *)
Theorem trace_frame_field_required
    (data : list (pystr * json)) (items : list json) (i : nat)
    (frame : list (pystr * json)) (name : string) :
  dict_get (lit "annotated_trace") data = Some (JArr items) ->
  nth_error items i = Some (JObj frame) ->
  name = "func"%string \/ name = "note"%string ->
  dict_get (lit name) frame = None ->
  exists errs,
    init (JObj data) = Raise (ValidationError (lit "AnalysisReport") errs)
    /\ In (ErrorDetail "missing"
             [LocField (lit "annotated_trace"); LocIndex i; LocField (lit name)]) errs.
Proof.
  intros Hget Hnth Hname Hnone.
  assert (Hitem : forall loc', exists errs,
    validate_TraceFrame loc' (JObj frame) = Invalid errs
    /\ In (ErrorDetail "missing" (loc' ++ [LocField (lit name)])) errs).
  { intros loc'. unfold validate_TraceFrame.
    destruct Hname as [-> | ->].
    - apply vap_invalid_l. apply vap_invalid_r. now apply required_missing.
    - apply vap_invalid_r. now apply required_missing. }
  destruct (validate_items_invalid validate_TraceFrame [LocField (lit "annotated_trace")]
              items i (JObj frame) "missing" [LocField (lit name)] Hnth Hitem 0)
    as (errs0 & E0 & Hin0).
  assert (G : exists errs,
    validate_AnalysisReport data = Invalid errs
    /\ In (ErrorDetail "missing"
             [LocField (lit "annotated_trace"); LocIndex i; LocField (lit name)]) errs).
  { unfold validate_AnalysisReport. apply vap_invalid_r.
    unfold required. rewrite Hget. cbn [validate_list app].
    exists errs0. split; [exact E0|exact Hin0]. }
  destruct G as (errs & E & Hin). exists errs.
  unfold AnalysisReport_init. rewrite E. split; [reflexivity|exact Hin].
Qed.

End NestedModels.

(** ** The prompt builder *)

Lemma build_user_prompt_as_rendered (req : AnalyzeRequest) :
  build_user_prompt req = rendered_message req.
Proof. destruct req as [l k d a]. destruct k, d, a; reflexivity. Qed.

Lemma optional_line_value (label : string) (value : pystr) :
  value <> [] -> optional_line label value = [10; 10]%N ++ lit label ++ value.
Proof. destruct value; [contradiction|reflexivity]. Qed.

Section PromptFacts.

Variable lim : limits.
Variable SYSTEM_PROMPT : pystr.
Variable messages_create : create_call -> res (list content_block).

(** X17. The optional fields are not delimited in the message: a kernel
    version that holds a blank line and the label of the distribution
    renders as the two fields would, so two different requests can give
    the same message, the same call and the same outcome. *)
Theorem prompt_metadata_not_delimited (log kv d ctx : pystr) :
  kv <> [] -> d <> [] ->
  request log (kv ++ [10; 10]%N ++ lit "Distribution: " ++ d) [] ctx <> request log kv d ctx
  /\ build_user_prompt (request log (kv ++ [10; 10]%N ++ lit "Distribution: " ++ d) [] ctx)
     = build_user_prompt (request log kv d ctx)
  /\ analyze_crash lim SYSTEM_PROMPT messages_create
       (request log (kv ++ [10; 10]%N ++ lit "Distribution: " ++ d) [] ctx)
     = analyze_crash lim SYSTEM_PROMPT messages_create
         (request log kv d ctx).
Proof.
  intros Hkv Hd.
  assert (E : build_user_prompt
                (request log (kv ++ [10; 10]%N ++ lit "Distribution: " ++ d) [] ctx)
              = build_user_prompt (request log kv d ctx)).
  { rewrite !build_user_prompt_as_rendered. unfold rendered_message.
    cbn [request log_text kernel_version distro additional_context].
    rewrite (optional_line_value "Kernel version (user-provided): " kv Hkv).
    rewrite (optional_line_value "Distribution: " d Hd).
    rewrite (optional_line_value "Kernel version (user-provided): "
               (kv ++ [10; 10]%N ++ lit "Distribution: " ++ d)).
    - cbn [optional_line]. repeat rewrite <- app_assoc. reflexivity.
    - intros H. apply app_eq_nil in H as [H _]. contradiction. }
  split; [|split; [exact E|]].
  - intros H. apply (f_equal distro) in H. simpl in H. congruence.
  - unfold analyze_crash, completion_call. rewrite E. reflexivity.
Qed.

End PromptFacts.

(** ** The further properties at sample inputs *)

Lemma provider_failure_classified_witness :
  analyze_crash sample_limits [] (failing_client (APIError (lit "overloaded")))
    (crash_request "kernel BUG at mm/slab.c:123")
  = ([completion_call [] (crash_request "kernel BUG at mm/slab.c:123")],
     Raises (on_exception (APIError (lit "overloaded"))))
  /\ status_code (on_exception (APIError (lit "overloaded"))) = 500%Z
  /\ ((forall msg doc pos, APIError (lit "overloaded") <> JSONDecodeError msg doc pos) ->
      detail (on_exception (APIError (lit "overloaded")))
      = DetailStr (lit "Analysis failed: ") (APIError (lit "overloaded")))
  /\ (forall msg doc pos, APIError (lit "overloaded") = JSONDecodeError msg doc pos ->
      detail (on_exception (APIError (lit "overloaded")))
      = DetailStr (lit "LLM returned invalid JSON: ") (APIError (lit "overloaded"))).
Proof.
  apply (provider_failure_classified sample_limits []
           (failing_client (APIError (lit "overloaded")))
           (crash_request "kernel BUG at mm/slab.c:123") (APIError (lit "overloaded"))).
  - reflexivity.
  - reflexivity.
Defined.

Lemma empty_content_index_error_witness :
  analyze_crash sample_limits [] silent_client (crash_request "kernel BUG at mm/slab.c:123")
  = ([completion_call [] (crash_request "kernel BUG at mm/slab.c:123")],
     Raises {| status_code := 500;
               detail := DetailStr (lit "Analysis failed: ")
                           (IndexError (lit "list index out of range")) |}).
Proof.
  apply (empty_content_index_error sample_limits [] silent_client
           (crash_request "kernel BUG at mm/slab.c:123")).
  - reflexivity.
  - reflexivity.
Defined.

Lemma non_object_reply_type_error_witness :
  analyze_crash sample_limits [] (reply_with (lit "[1, 2]"))
    (crash_request "kernel BUG at mm/slab.c:123")
  = ([completion_call [] (crash_request "kernel BUG at mm/slab.c:123")],
     Raises {| status_code := 500; detail := DetailStr (lit "Analysis failed: ") TypeError |}).
Proof.
  apply (non_object_reply_type_error sample_limits [] (reply_with (lit "[1, 2]"))
           (crash_request "kernel BUG at mm/slab.c:123")
           (lit "[1, 2]") (lit "[1, 2]") (JArr [JInt 1; JInt 2]) []).
  - reflexivity.
  - reflexivity.
  - reflexivity.
  - vm_compute. reflexivity.
  - intros data H. discriminate H.
Defined.

Lemma returned_report_sound_witness :
  forallb isspace (log_text (crash_request "kernel BUG at mm/slab.c:123")) = false
  /\ exists text more raw data,
       reply_with sample_text (completion_call [] (crash_request "kernel BUG at mm/slab.c:123"))
       = Ok (TextBlock text :: more)
       /\ strip_fence text = Ok raw
       /\ Json.loads sample_limits raw = Ok (JObj data)
       /\ validate_AnalysisReport data = Valid (sample_report 85)
       /\ forall name, In name report_fields -> dict_get name data <> None.
Proof.
  apply (returned_report_sound sample_limits [] (reply_with sample_text)
           (crash_request "kernel BUG at mm/slab.c:123") (sample_report 85)).
  vm_compute. reflexivity.
Defined.

Lemma strip_fence_output_trimmed_witness :
  strip (lit "{}") = lit "{}"
  /\ (forall c t, lit "{}" = c :: t -> isspace c = false)
  /\ (forall t c, lit "{}" = t ++ [c] -> isspace c = false).
Proof.
  apply (strip_fence_output_trimmed (fenced (lit "json") (lit "  {}  ")) (lit "{}")).
  reflexivity.
Defined.

Lemma reply_whitespace_irrelevant_witness :
  strip_fence ([10; 32]%N ++ sample_text ++ [9; 160; 8232]%N) = strip_fence sample_text
  /\ validate_reply sample_limits ([10; 32]%N ++ sample_text ++ [9; 160; 8232]%N)
     = validate_reply sample_limits sample_text.
Proof.
  apply (reply_whitespace_irrelevant sample_limits [10; 32]%N [9; 160; 8232]%N sample_text).
  - reflexivity.
  - reflexivity.
Defined.

Lemma opening_fence_only_witness :
  strip_fence (fence ++ lit "json" ++ [10%N] ++ lit "{} ") = Ok (strip (lit "{} ")).
Proof.
  apply (opening_fence_only (lit "json") (lit "{} ")).
  - simpl. intros H. repeat destruct H as [H|H]; try discriminate H. exact H.
  - discriminate.
  - reflexivity.
Defined.

Lemma closing_fence_only_witness :
  strip_fence (lit " {} " ++ fence) = Ok (strip (lit " {} ")).
Proof.
  apply (closing_fence_only (lit " {} ")).
  reflexivity.
Defined.

Lemma fence_pair_any_layout_witness :
  strip_fence (fence ++ lit "json" ++ [10%N] ++ lit "{}" ++ fence) = Ok (strip (lit "{}")).
Proof.
  apply (fence_pair_any_layout (lit "json") (lit "{}")).
  simpl. intros H. repeat destruct H as [H|H]; try discriminate H. exact H.
Defined.

Lemma sample_issue_doc_opt :
  Forall2 issue_doc_opt
    [{| id := lit "CVE-2021-0001"; title := lit "slab double free"; url := lit "#" |};
     {| id := lit "CVE-2021-0001"; title := lit "slab double free"; url := lit "#" |}]
    [JObj sample_issue_without_url; JObj sample_issue].
Proof.
  constructor; [|constructor; [|constructor]].
  - exists sample_issue_without_url. split; [reflexivity|]. split; [reflexivity|].
    split; [reflexivity|]. right. split; reflexivity.
  - exists sample_issue. split; [reflexivity|]. split; [reflexivity|].
    split; [reflexivity|]. left. reflexivity.
Defined.

Lemma related_issue_url_default_witness :
  AnalysisReport_init
    (JObj (dict_set (lit "related_issues")
             (JArr [JObj sample_issue_without_url; JObj sample_issue])
             (sample_data (JInt 85))))
  = Ok (with_related_issues
          [{| id := lit "CVE-2021-0001"; title := lit "slab double free"; url := lit "#" |};
           {| id := lit "CVE-2021-0001"; title := lit "slab double free"; url := lit "#" |}]
          (sample_report 85)).
Proof.
  apply (related_issue_url_default (sample_data (JInt 85)) (sample_report 85)).
  - reflexivity.
  - exact sample_issue_doc_opt.
Defined.

Lemma all_missing_fields_reported_witness :
  In (ErrorDetail "missing" [LocField (lit "confidence")]) all_fields_missing
  /\ In (ErrorDetail "missing" [LocField (lit "related_issues")]) all_fields_missing.
Proof.
  split.
  - apply (all_missing_fields_reported [] (lit "AnalysisReport")
             all_fields_missing).
    + reflexivity.
    + simpl. tauto.
    + reflexivity.
  - apply (all_missing_fields_reported [] (lit "AnalysisReport")
             all_fields_missing).
    + reflexivity.
    + simpl. tauto.
    + reflexivity.
Defined.

Lemma list_element_rejected_witness :
  exists errs,
    AnalysisReport_init
      (JObj (dict_set (lit "suggested_fixes") (JArr [JStr (lit "reboot"); JNull])
               (sample_data (JInt 85))))
    = Raise (ValidationError (lit "AnalysisReport") errs)
    /\ In (ErrorDetail "string_type" [LocField (lit "suggested_fixes"); LocIndex 1]) errs.
Proof.
  apply (list_element_rejected
           (dict_set (lit "suggested_fixes") (JArr [JStr (lit "reboot"); JNull])
              (sample_data (JInt 85)))
           [JStr (lit "reboot"); JNull] 1 JNull).
  - reflexivity.
  - reflexivity.
  - intros s H. discriminate H.
Defined.

Lemma related_issue_field_required_witness :
  exists errs,
    AnalysisReport_init
      (JObj (dict_set (lit "related_issues")
               (JArr [JObj sample_issue; JObj [(lit "id", JStr (lit "BUG-7"))]])
               (sample_data (JInt 85))))
    = Raise (ValidationError (lit "AnalysisReport") errs)
    /\ In (ErrorDetail "missing"
             [LocField (lit "related_issues"); LocIndex 1; LocField (lit "title")]) errs.
Proof.
  apply (related_issue_field_required
           (dict_set (lit "related_issues")
              (JArr [JObj sample_issue; JObj [(lit "id", JStr (lit "BUG-7"))]])
              (sample_data (JInt 85)))
           [JObj sample_issue; JObj [(lit "id", JStr (lit "BUG-7"))]] 1
           [(lit "id", JStr (lit "BUG-7"))] "title").
  - reflexivity.
  - reflexivity.
  - right. reflexivity.
  - reflexivity.
Defined.

Lemma trace_frame_field_required_witness :
  exists errs,
    AnalysisReport_init
      (JObj (dict_set (lit "annotated_trace")
               (JArr [JObj [(lit "note", JStr (lit "entry point"))]])
               (sample_data (JInt 85))))
    = Raise (ValidationError (lit "AnalysisReport") errs)
    /\ In (ErrorDetail "missing"
             [LocField (lit "annotated_trace"); LocIndex 0; LocField (lit "func")]) errs.
Proof.
  apply (trace_frame_field_required
           (dict_set (lit "annotated_trace")
              (JArr [JObj [(lit "note", JStr (lit "entry point"))]])
              (sample_data (JInt 85)))
           [JObj [(lit "note", JStr (lit "entry point"))]] 0
           [(lit "note", JStr (lit "entry point"))] "func").
  - reflexivity.
  - reflexivity.
  - left. reflexivity.
  - reflexivity.
Defined.

Lemma prompt_metadata_not_delimited_witness :
  request (lit "BUG") (lit "6.1" ++ [10; 10]%N ++ lit "Distribution: " ++ lit "Debian") [] []
  <> request (lit "BUG") (lit "6.1") (lit "Debian") []
  /\ build_user_prompt
       (request (lit "BUG") (lit "6.1" ++ [10; 10]%N ++ lit "Distribution: " ++ lit "Debian")
          [] [])
     = build_user_prompt (request (lit "BUG") (lit "6.1") (lit "Debian") [])
  /\ analyze_crash sample_limits [] (reply_with sample_text)
       (request (lit "BUG") (lit "6.1" ++ [10; 10]%N ++ lit "Distribution: " ++ lit "Debian")
          [] [])
     = analyze_crash sample_limits [] (reply_with sample_text)
         (request (lit "BUG") (lit "6.1") (lit "Debian") []).
Proof.
  apply (prompt_metadata_not_delimited sample_limits [] (reply_with sample_text)
           (lit "BUG") (lit "6.1") (lit "Debian") []).
  - discriminate.
  - discriminate.
Defined.
